(** * pas_zip.h: a shallow embedding of the in-memory ZIP reader and writer

    The development follows [pas_zip.h] function by function.

    Conventions of the embedding.
    - A caller buffer (pointer and size) is a [list byte]; its [size] is the
      length of the list.  Data and string pointers are never NULL, and a
      C string argument is the list of its bytes (read up to the first NUL
      byte if it has one).
    - [uint16_t] and [uint32_t] values are [Z] with the wrap-around written
      out; [size_t] is 64 bits wide (LP64).
    - An optional [status] out-parameter is modelled by the value the call
      leaves in it.
    - The three module-level objects [pas_zip__handle],
      [pas_zip__current_file] and [pas_zip__name_buf] form the explicit
      [state]; the only non-NULL [pas_zip_t*] and [pas_zip_file_t*] the
      library ever hands out are the addresses of the first two.
    - The default build is modelled: neither PAS_ZIP_USE_MINIZ nor
      PAS_ZIP_USE_ZLIB is defined. *)

From Stdlib Require Import ZArith List Lia Bool.
From Stdlib Require Import Strings.Byte.
From Stdlib Require Strings.String.
Import ListNotations.
Local Open Scope Z_scope.

(** ** Bytes and machine integers *)

Module Mem.

(** The value of a byte as an unsigned integer. *)
Definition b2z (b : byte) : Z := Z.of_N (Byte.to_N b).

(** The cast [(uint8_t)z]. *)
Definition z2b (z : Z) : byte :=
  match Byte.of_N (Z.to_N (z mod 256)) with
  | Some b => b
  | None => x00
  end.

Definition u16 (z : Z) : Z := z mod 65536.
Definition u32 (z : Z) : Z := z mod 4294967296.
Definition usize (z : Z) : Z := z mod 18446744073709551616.

Definition len (l : list byte) : Z := Z.of_nat (List.length l).

(** [data[i]] as an integer.  An index outside the buffer is undefined
    behaviour in C; the model reads 0 there. *)
Definition byte_at (data : list byte) (i : Z) : Z :=
  if i <? 0 then 0 else b2z (nth (Z.to_nat i) data x00).

(** [n] bytes of [data] from position [off] on. *)
Definition slice (data : list byte) (off n : Z) : list byte :=
  firstn (Z.to_nat n) (skipn (Z.to_nat off) data).

(** [memcpy(dst, src, n)] on a destination seen as a list: the first [n]
    bytes are replaced.  When [n] exceeds the destination the result is
    longer than the destination was (the overflow stays visible). *)
Definition memcpy (dst src : list byte) (n : Z) : list byte :=
  firstn (Z.to_nat n) src ++ skipn (Z.to_nat n) dst.

(** The bytes of a NUL-terminated string stored at the start of [l]. *)
Fixpoint cstr (l : list byte) : list byte :=
  match l with
  | [] => []
  | b :: t => if Byte.eqb b x00 then [] else b :: cstr t
  end.

Definition strlen (l : list byte) : Z := len (cstr l).

Fixpoint bytes_eqb (a b : list byte) : bool :=
  match a, b with
  | [], [] => true
  | x :: a', y :: b' => Byte.eqb x y && bytes_eqb a' b'
  | _, _ => false
  end.

(** [strcmp(a, b) == 0]. *)
Definition strcmp_eq (a b : list byte) : bool := bytes_eqb (cstr a) (cstr b).

(** The little-endian bytes [(uint8_t)z, (uint8_t)(z>>8), ...]. *)
Definition le16 (z : Z) : list byte := [z2b z; z2b (Z.shiftr z 8)].
Definition le32 (z : Z) : list byte :=
  [z2b z; z2b (Z.shiftr z 8); z2b (Z.shiftr z 16); z2b (Z.shiftr z 24)].

Definition zeros (n : nat) : list byte := repeat x00 n.

End Mem.
Import Mem.

(** ** Constants and types of the header *)

Inductive pas_zip_status :=
| PAS_ZIP_OK
| PAS_ZIP_E_INVALID
| PAS_ZIP_E_NOT_FOUND
| PAS_ZIP_E_COMPRESSED
| PAS_ZIP_E_NOSPACE
| PAS_ZIP_E_ZLIB.

Definition PAS_ZIP_METHOD_STORE : Z := 0.
Definition PAS_ZIP_METHOD_DEFLATE : Z := 8.

Definition PAS_ZIP_EOCD_SIG : Z := 0x06054b50.
Definition PAS_ZIP_CDH_SIG : Z := 0x02014b50.
Definition PAS_ZIP_LFH_SIG : Z := 0x04034b50.

(** [sizeof(pas_zip__name_buf)] *)
Definition NAME_BUF_SIZE : Z := 512.

(** [struct pas_zip] *)
Record pas_zip := mk_pas_zip {
  data : list byte;
  size : Z;
  cd_offset : Z;
  num_entries : Z
}.

(** What a [const char *name] field can hold: NULL, or the address of the
    module-level [pas_zip__name_buf]. *)
Inductive name_ptr := NAME_NULL | NAME_BUF.

(** [struct pas_zip_file] *)
Record pas_zip_file := mk_pas_zip_file {
  name : name_ptr;
  compressed_size : Z;
  uncompressed_size : Z;
  compression_method : Z;
  local_header_offset : Z
}.

(** A [pas_zip_t*]: NULL or [&pas_zip__handle]. *)
Inductive zip_ptr := ZIP_NULL | ZIP_HANDLE.

(** A [pas_zip_file_t*]: NULL or [&pas_zip__current_file]. *)
Inductive file_ptr := FILE_NULL | FILE_CURRENT.

(** The module-level storage. *)
Record state := mk_state {
  pas_zip__handle : pas_zip;
  pas_zip__current_file : pas_zip_file;
  pas_zip__name_buf : list byte
}.

(** Static storage starts zeroed. *)
Definition initial_state : state :=
  mk_state (mk_pas_zip [] 0 0 0)
           (mk_pas_zip_file NAME_NULL 0 0 0 0)
           (zeros 512).

(** ** Readers *)

Definition read_u32_le (d : list byte) (p : Z) : Z :=
  Z.lor (Z.lor (Z.lor (byte_at d p)
                      (Z.shiftl (byte_at d (p + 1)) 8))
               (Z.shiftl (byte_at d (p + 2)) 16))
        (Z.shiftl (byte_at d (p + 3)) 24).

Definition read_u16_le (d : list byte) (p : Z) : Z :=
  Z.lor (byte_at d p) (Z.shiftl (byte_at d (p + 1)) 8).

(** *** find_eocd

    The [for (i = size - 22; ; i--)] loop.  [fuel] counts the iterations
    still allowed; the outer [None] means the counter ran out, the inner
    option is the C result (0 is [None], 1 is [Some (cd_offset, num_entries)]).
    The guard [i + 22 > size] with its [continue] is kept as written. *)
Fixpoint find_eocd_loop (fuel : nat) (d : list byte) (sz search_end i : Z)
  : option (option (Z * Z)) :=
  match fuel with
  | O => None
  | S fuel' =>
      if usize (i + 22) >? sz then
        find_eocd_loop fuel' d sz search_end (usize (i - 1))
      else if read_u32_le d i =? PAS_ZIP_EOCD_SIG then
        let num := read_u16_le d (i + 8) in
        let cdo := read_u32_le d (i + 16) in
        if cdo >=? sz then Some None else Some (Some (cdo, num))
      else if (i <=? search_end) || (i =? 0) then Some None
      else find_eocd_loop fuel' d sz search_end (usize (i - 1))
  end.

(** The number of start positions the loop can visit. *)
Definition find_eocd_fuel (sz : Z) : nat := S (Z.to_nat (sz - 22)).

Definition find_eocd_run (d : list byte) (sz : Z) : option (option (Z * Z)) :=
  if sz <? 22 then Some None
  else
    let search_end := if sz >? 65557 then sz - 65557 else 0 in
    find_eocd_loop (find_eocd_fuel sz) d sz search_end (sz - 22).

Definition find_eocd (d : list byte) (sz : Z) : option (Z * Z) :=
  match find_eocd_run d sz with
  | Some r => r
  | None => None
  end.

(** *** pas_zip_open *)
Definition pas_zip_open (st : state) (d : list byte)
  : zip_ptr * pas_zip_status * state :=
  let sz := len d in
  if sz <? 22 then (ZIP_NULL, PAS_ZIP_E_INVALID, st)
  else
    match find_eocd d sz with
    | None => (ZIP_NULL, PAS_ZIP_E_INVALID, st)
    | Some (cdo, num) =>
        (ZIP_HANDLE, PAS_ZIP_OK,
         mk_state (mk_pas_zip d sz cdo num)
                  (pas_zip__current_file st)
                  (pas_zip__name_buf st))
    end.

(** *** parse_cd_entry

    [p] is the cursor as an offset from the start of the archive, [end_] the
    archive size.  On success the entry and the new content of
    [pas_zip__name_buf] are returned; on failure (C result 0) nothing has
    been stored. *)
Definition store_byte (l : list byte) (i : Z) (b : byte) : list byte :=
  firstn (Z.to_nat i) l ++ b :: skipn (S (Z.to_nat i)) l.

Definition parse_cd_entry (d : list byte) (p end_ : Z) (nb : list byte)
  : option (pas_zip_file * list byte) :=
  if p + 46 >? end_ then None
  else if negb (read_u32_le d p =? PAS_ZIP_CDH_SIG) then None
  else
    let fn_len := read_u16_le d (p + 28) in
    let extra_len := read_u16_le d (p + 30) in
    let comment_len := read_u16_le d (p + 32) in
    let need := 46 + fn_len + extra_len + comment_len in
    if p + need >? end_ then None
    else
      let fn_len' :=
        if fn_len >=? NAME_BUF_SIZE then u16 (NAME_BUF_SIZE - 1) else fn_len in
      let nb1 := memcpy nb (skipn (Z.to_nat (p + 46)) d) fn_len' in
      let nb2 := store_byte nb1 fn_len' x00 in
      Some (mk_pas_zip_file NAME_BUF
              (read_u32_le d (p + 20))
              (read_u32_le d (p + 24))
              (read_u16_le d (p + 10))
              (read_u32_le d (p + 42)),
            nb2).

(** *** cd_iterate

    What one run leaves behind: the C result, the entry stored through
    [out] (if any), the final content of the name buffer and the calls made
    to the callback, each with the string it was shown and the size. *)
Record iter_result := mk_iter {
  it_ret : bool;
  it_out : option pas_zip_file;
  it_name_buf : list byte;
  it_calls : list (list byte * Z)
}.

(** The [while (n-- && p < end)] loop; [n] is the entry counter. *)
Fixpoint cd_iterate_loop (d : list byte) (end_ : Z)
    (find_name : option (list byte)) (cb : bool)
    (n : nat) (p : Z) (nb : list byte) (calls : list (list byte * Z))
  : iter_result :=
  match n with
  | O => mk_iter (match find_name with Some _ => false | None => true end)
                 None nb calls
  | S n' =>
      if p <? end_ then
        match parse_cd_entry d p end_ nb with
        | None => mk_iter false None nb calls
        | Some (entry, nb') =>
            let calls' :=
              if cb then calls ++ [(cstr nb', uncompressed_size entry)]
              else calls in
            let hit :=
              match find_name with
              | Some q => strcmp_eq nb' q
              | None => false
              end in
            if hit then mk_iter true (Some entry) nb' calls'
            else
              cd_iterate_loop d end_ find_name cb n'
                (p + (46 + read_u16_le d (p + 28) + read_u16_le d (p + 30)
                         + read_u16_le d (p + 32)))
                nb' calls'
        end
      else mk_iter (match find_name with Some _ => false | None => true end)
                   None nb calls
  end.

Definition cd_iterate (zip : pas_zip) (find_name : option (list byte))
    (cb : bool) (nb : list byte) : iter_result :=
  cd_iterate_loop (data zip) (size zip) find_name cb
    (Z.to_nat (num_entries zip)) (cd_offset zip) nb [].

(** *** pas_zip_find

    The returned pointer is always [&pas_zip__current_file]; the entry it
    denotes is whatever that record holds when it is read. *)
Definition pas_zip_find (st : state) (zip : zip_ptr) (q : list byte)
  : file_ptr * state :=
  match zip with
  | ZIP_NULL => (FILE_NULL, st)
  | ZIP_HANDLE =>
      let r := cd_iterate (pas_zip__handle st) (Some q) false
                          (pas_zip__name_buf st) in
      if it_ret r then
        (FILE_CURRENT,
         mk_state (pas_zip__handle st)
                  (match it_out r with
                   | Some ent => ent
                   | None => pas_zip__current_file st
                   end)
                  (it_name_buf r))
      else
        (FILE_NULL,
         mk_state (pas_zip__handle st) (pas_zip__current_file st)
                  (it_name_buf r))
  end.

(** Accessors: what a caller reads through a [pas_zip_file_t*]. *)
Definition deref_name (st : state) (n : name_ptr) : option (list byte) :=
  match n with
  | NAME_NULL => None
  | NAME_BUF => Some (cstr (pas_zip__name_buf st))
  end.

Definition pas_zip_name (st : state) (file : file_ptr) : option (list byte) :=
  match file with
  | FILE_NULL => None
  | FILE_CURRENT => deref_name st (name (pas_zip__current_file st))
  end.

Definition pas_zip_size (st : state) (file : file_ptr) : Z :=
  match file with
  | FILE_NULL => 0
  | FILE_CURRENT => uncompressed_size (pas_zip__current_file st)
  end.

Definition pas_zip_is_compressed (st : state) (file : file_ptr) : bool :=
  match file with
  | FILE_NULL => false
  | FILE_CURRENT =>
      negb (compression_method (pas_zip__current_file st)
            =? PAS_ZIP_METHOD_STORE)
  end.

(** *** pas_zip_list

    [callback] tells whether the callback pointer is non-NULL; the calls it
    receives are returned. *)
Definition pas_zip_list (st : state) (zip : zip_ptr) (callback : bool)
  : Z * list (list byte * Z) * state :=
  match zip with
  | ZIP_NULL => (-1, [], st)
  | ZIP_HANDLE =>
      if negb callback then (-1, [], st)
      else
        let r := cd_iterate (pas_zip__handle st) None true
                            (pas_zip__name_buf st) in
        (if it_ret r then 0 else -1, it_calls r,
         mk_state (pas_zip__handle st) (pas_zip__current_file st)
                  (it_name_buf r))
  end.

(** *** skip_local_header

    The sum [offset + 30] of the bounds check is computed in 32 bits.  When
    it wraps around, the check passes for a header that does not lie in
    the buffer and the C code reads outside it; [header_check_wraps] below
    tells when, and the embedding (which reads 0 outside the buffer) is
    used only where it is [false]. *)
Definition skip_local_header (d : list byte) (sz offset : Z) : Z :=
  if u32 (offset + 30) >? sz then 0
  else if negb (read_u32_le d offset =? PAS_ZIP_LFH_SIG) then 0
  else
    let fn_len := read_u16_le d (offset + 26) in
    let extra_len := read_u16_le d (offset + 28) in
    30 + fn_len + extra_len.

(** The bounds check of [skip_local_header] passes although the 30 bytes
    at [offset] do not lie inside the [sz] bytes of the archive: the reads
    that follow are outside the buffer, undefined behaviour in C.  For a
    32-bit offset this needs [offset + 30 >= 2^32]. *)
Definition header_check_wraps (sz offset : Z) : bool :=
  negb (u32 (offset + 30) >? sz) && (sz <? offset + 30).

(** *** pas_zip_extract

    The result is the returned byte count, the status and the destination
    buffer after the call; [buffer_size] is the length of [buffer]. *)
Definition extract_from (d : list byte) (data_size : Z) (f : pas_zip_file)
    (buffer : list byte) : Z * pas_zip_status * list byte :=
  let payload_offset := skip_local_header d data_size (local_header_offset f) in
  if payload_offset =? 0 then (0, PAS_ZIP_E_INVALID, buffer)
  else if usize (payload_offset + compressed_size f) >? data_size then
    (0, PAS_ZIP_E_INVALID, buffer)
  else if len buffer <? uncompressed_size f then
    (0, PAS_ZIP_E_NOSPACE, buffer)
  else if compression_method f =? PAS_ZIP_METHOD_STORE then
    (uncompressed_size f, PAS_ZIP_OK,
     memcpy buffer (skipn (Z.to_nat payload_offset) d) (compressed_size f))
  else if compression_method f =? PAS_ZIP_METHOD_DEFLATE then
    (0, PAS_ZIP_E_COMPRESSED, buffer)
  else (0, PAS_ZIP_E_INVALID, buffer).

Definition pas_zip_extract (st : state) (file : file_ptr) (buffer : list byte)
  : Z * pas_zip_status * list byte :=
  match file with
  | FILE_NULL => (0, PAS_ZIP_E_INVALID, buffer)
  | FILE_CURRENT =>
      extract_from (data (pas_zip__handle st)) (size (pas_zip__handle st))
                   (pas_zip__current_file st) buffer
  end.

(** ** The writer: pas_zip_create

    An input file is a pair (filename, payload): [filenames[i]] is the
    NUL-terminated string whose bytes are the first component, [datas[i]]
    the second and [sizes[i]] its length; [file_count] is the length of the
    list, taken to fit an [int].

    All stores go through [out[written++]] or a [memcpy] at [out + written],
    so the bytes stored so far are a list and [written] is its length.  The
    list records every store the call performs, also those of a call that
    fails later and those that land past [buffer_size]. *)
Definition zfile : Type := list byte * list byte.

Record create_result := mk_create {
  cr_ret : Z;
  cr_status : pas_zip_status;
  cr_stored : list byte
}.

(** The bytes of one iteration of the first loop before the two [memcpy]. *)
Definition local_header_bytes (fn_len sz : Z) : list byte :=
  [x50; x4b; x03; x04] ++ [x14; x00; x00; x00] ++ [x00; x00]
  ++ zeros 12
  ++ le32 sz ++ le32 sz
  ++ le16 fn_len ++ [x00; x00].

(** First loop.  The result is the error status of an early return, or the
    bytes stored when the loop finished. *)
Fixpoint create_locals (files : list zfile) (buffer_size : Z)
    (out : list byte) : pas_zip_status * list byte + list byte :=
  match files with
  | [] => inr out
  | (fname, dat) :: rest =>
      let fn_len := u16 (strlen fname) in
      let sz := u32 (len dat) in
      let need := u32 (30 + fn_len + sz) in
      if negb (fn_len =? strlen fname) then inl (PAS_ZIP_E_INVALID, out)
      else if usize (len out + need) >? buffer_size then
        inl (PAS_ZIP_E_NOSPACE, out)
      else
        create_locals rest buffer_size
          (out ++ local_header_bytes fn_len sz
               ++ firstn (Z.to_nat fn_len) (cstr fname)
               ++ firstn (Z.to_nat sz) dat)
  end.

(** The inner loop [for (j = 0; j < i; j++) local_off += ...]. *)
Definition local_off_of (files : list zfile) (i : nat) : Z :=
  fold_left
    (fun acc (f : zfile) =>
       u32 (acc + u32 (30 + u32 (strlen (fst f)) + u32 (len (snd f)))))
    (firstn i files) 0.

(** The bytes of one iteration of the second loop before the [memcpy]. *)
Definition central_header_bytes (fn_len local_off : Z) : list byte :=
  [x50; x4b; x01; x02] ++ [x14; x00; x14; x00] ++ [x00; x00; x00; x00]
  ++ zeros 12
  ++ le16 fn_len
  ++ [x00; x00; x00; x00] ++ [x00; x00; x00; x00] ++ [x00; x00]
  ++ le32 local_off.

(** Second loop, entered at index [i] with [todo] the files from [i] on. *)
Fixpoint create_central (files todo : list zfile) (i : nat) (buffer_size : Z)
    (cd_size : Z) (out : list byte)
  : pas_zip_status * list byte + Z * list byte :=
  match todo with
  | [] => inr (cd_size, out)
  | (fname, _) :: rest =>
      let fn_len := u16 (strlen fname) in
      let local_off := local_off_of files i in
      if usize (usize (len out + 46) + fn_len) >? buffer_size then
        inl (PAS_ZIP_E_NOSPACE, out)
      else
        create_central files rest (S i) buffer_size
          (u32 (cd_size + (46 + fn_len)))
          (out ++ central_header_bytes fn_len local_off
               ++ firstn (Z.to_nat fn_len) (cstr fname))
  end.

Definition trailer_bytes (file_count cd_size cd_offset : Z) : list byte :=
  [x50; x4b; x05; x06] ++ zeros 4
  ++ le16 file_count ++ le16 file_count
  ++ le32 cd_size ++ le32 cd_offset
  ++ [x00; x00].

Definition pas_zip_create (files : list zfile) (buffer_size : Z)
  : create_result :=
  let file_count := Z.of_nat (List.length files) in
  if file_count <=? 0 then mk_create 0 PAS_ZIP_E_INVALID []
  else
    match create_locals files buffer_size [] with
    | inl (s, out) => mk_create 0 s out
    | inr out1 =>
        let cd_offset := u32 (len out1) in
        match create_central files files 0 buffer_size 0 out1 with
        | inl (s, out) => mk_create 0 s out
        | inr (cd_size, out2) =>
            if usize (len out2 + 22) >? buffer_size then
              mk_create 0 PAS_ZIP_E_NOSPACE out2
            else
              let out3 := out2 ++ trailer_bytes file_count cd_size cd_offset in
              mk_create (len out3) PAS_ZIP_OK out3
        end
    end.

(** ** Vocabulary of the statements *)

(** The central-directory record at offset [p] of the archive [d], field by
    field as [parse_cd_entry] reads it. *)
Definition cd_fn_len (d : list byte) (p : Z) : Z := read_u16_le d (p + 28).
Definition cd_extra_len (d : list byte) (p : Z) : Z := read_u16_le d (p + 30).
Definition cd_comment_len (d : list byte) (p : Z) : Z :=
  read_u16_le d (p + 32).

(** The filename bytes stored in the record, all [fn_len] of them. *)
Definition cd_stored_name (d : list byte) (p : Z) : list byte :=
  slice d (p + 46) (cd_fn_len d p).

(** The record passes the checks of [parse_cd_entry] against the end
    bound [end_]. *)
Definition cd_record_ok (d : list byte) (p end_ : Z) : Prop :=
  p + 46 <= end_ /\
  read_u32_le d p = PAS_ZIP_CDH_SIG /\
  p + (46 + cd_fn_len d p + cd_extra_len d p + cd_comment_len d p) <= end_.

(** The same checks as a boolean, and the step [cd_iterate] takes to the
    next record. *)
Definition cd_record_okb (d : list byte) (p end_ : Z) : bool :=
  (p + 46 <=? end_) && (read_u32_le d p =? PAS_ZIP_CDH_SIG)
  && (p + (46 + cd_fn_len d p + cd_extra_len d p + cd_comment_len d p)
      <=? end_).

Definition cd_advance (d : list byte) (p : Z) : Z :=
  46 + cd_fn_len d p + cd_extra_len d p + cd_comment_len d p.

(** The central-directory entries of an archive: the offsets of the
    records a full walk visits, in directory order, starting at [p] with
    at most [n] records and stopping at the end bound or at the first
    record that fails the checks. *)
Fixpoint cd_records (d : list byte) (end_ : Z) (n : nat) (p : Z) : list Z :=
  match n with
  | O => []
  | S n' =>
      if (p <? end_) && cd_record_okb d p end_
      then p :: cd_records d end_ n' (p + cd_advance d p)
      else []
  end.

(** The central-directory entries of the archive behind a handle. *)
Definition handle_records (h : pas_zip) : list Z :=
  cd_records (data h) (size h) (Z.to_nat (num_entries h)) (cd_offset h).

(** The entry [parse_cd_entry] builds from the record. *)
Definition cd_entry (d : list byte) (p : Z) : pas_zip_file :=
  mk_pas_zip_file NAME_BUF
    (read_u32_le d (p + 20)) (read_u32_le d (p + 24))
    (read_u16_le d (p + 10)) (read_u32_le d (p + 42)).

(** What the parser keeps of a stored name: its first 511 bytes, read as
    a C string (up to the first NUL byte). *)
Definition kept_name (stored : list byte) : list byte :=
  cstr (firstn 511 stored).

(** The handle describes its buffer: this is what a successful
    [pas_zip_open] leaves, and what the zeroed initial handle satisfies. *)
Definition handle_ok (h : pas_zip) : Prop :=
  size h = len (data h) /\ 0 <= cd_offset h.

(** The local header at [off] is valid for an archive of [sz] bytes and the
    payload of [csize] bytes that follows it lies inside the archive. *)
Definition local_header_ok (d : list byte) (sz off csize : Z) : Prop :=
  0 <= off /\
  off + 30 <= sz /\
  read_u32_le d off = PAS_ZIP_LFH_SIG /\
  off + 30 + read_u16_le d (off + 26) + read_u16_le d (off + 28) + csize <= sz.

(** A later [pas_zip_find] or [pas_zip_list] from [st] parses no directory
    record: the handle has no entries, or its directory offset is not below
    its size, or the first record is rejected. *)
Definition parses_no_record (st : state) : Prop :=
  num_entries (pas_zip__handle st) <= 0 \/
  size (pas_zip__handle st) <= cd_offset (pas_zip__handle st) \/
  parse_cd_entry (data (pas_zip__handle st)) (cd_offset (pas_zip__handle st))
                 (size (pas_zip__handle st)) (pas_zip__name_buf st) = None.

(** ** Test data *)

Module Fixture.
Import String.

Definition str (s : String.string) : list byte :=
  String.list_byte_of_string s.
Arguments str s%_string.

(** A local file header in the layout the reader expects
    (30 bytes, sizes at 18 and 22, name length at 26), with name and
    payload. *)
Definition lfh (nm payload : list byte) : list byte :=
  [x50; x4b; x03; x04] ++ [x14; x00] ++ [x00; x00] ++ [x00; x00]
  ++ zeros 8
  ++ le32 (len payload) ++ le32 (len payload)
  ++ le16 (len nm) ++ [x00; x00]
  ++ nm ++ payload.

(** A central-directory record in the layout the reader expects
    (46 bytes, method at 10, sizes at 20 and 24, name length at 28,
    local header offset at 42), with the name. *)
Definition cdh (method csize usize_ off : Z) (nm : list byte) : list byte :=
  [x50; x4b; x01; x02] ++ [x14; x00; x14; x00] ++ [x00; x00]
  ++ le16 method
  ++ zeros 8
  ++ le32 csize ++ le32 usize_
  ++ le16 (len nm) ++ [x00; x00] ++ [x00; x00]
  ++ zeros 8
  ++ le32 off
  ++ nm.

(** An end-of-central-directory record with its comment. *)
Definition eocd (count cd_size cd_off : Z) (comment : list byte)
  : list byte :=
  [x50; x4b; x05; x06] ++ zeros 4
  ++ le16 count ++ le16 count
  ++ le32 cd_size ++ le32 cd_off
  ++ le16 (len comment) ++ comment.

(** Two stored files, "a" holding "AB" and "b" holding "CD". *)
Definition archive_ab : list byte :=
  lfh (str "a") (str "AB") ++ lfh (str "b") (str "CD")
  ++ cdh 0 2 2 0 (str "a") ++ cdh 0 2 2 33 (str "b")
  ++ eocd 2 94 66 [].

(** One stored file; an earlier end record, whose comment repeats the
    signature, precedes the trailer, and the trailer has the comment
    "ok".  The trailer starts at 106 and the buffer has 130 bytes. *)
Definition archive_decoy : list byte :=
  lfh (str "a") (str "AB") ++ cdh 0 2 2 0 (str "a")
  ++ eocd 7 9 5 [x50; x4b; x05; x06]
  ++ eocd 1 47 33 (str "ok").

Definition name_a : list byte := str "a".
Definition name_b : list byte := str "b".
Definition name_a_txt : list byte := str "a.txt".
Definition name_b_bin : list byte := str "b.bin".

(** A directory with a single record whose stored name is 512 times the
    letter a, and the trailer; and the query made of 511 of them. *)
Definition long_name : list byte := repeat x61 512.
Definition short_query : list byte := repeat x61 511.
Definition archive_long : list byte :=
  cdh 0 0 0 0 long_name ++ eocd 1 558 0 [].

(** One stored file whose directory record declares a compressed size
    of 1 and an uncompressed size of 2. *)
Definition archive_skew : list byte :=
  lfh name_a (str "AB") ++ cdh 0 1 2 0 name_a ++ eocd 1 47 33 [].

(** A trailer alone: an archive without entries. *)
Definition archive_empty : list byte := eocd 0 0 0 [].

(** The input of the scenario of the specification. *)
Definition scenario : list zfile :=
  [(str "a.txt", str "hi"); (str "b.bin", [x00; x01; x02; x03])].

(** A second archive: one stored file "a" holding "XY". *)
Definition archive_xy : list byte :=
  lfh name_a (str "XY") ++ cdh 0 2 2 0 name_a ++ eocd 1 47 33 [].

(** The states after opening the archives from the initial state. *)
Definition st_ab : state := snd (pas_zip_open initial_state archive_ab).
Definition st_long : state := snd (pas_zip_open initial_state archive_long).
Definition st_skew : state := snd (pas_zip_open initial_state archive_skew).
Definition st_empty : state :=
  snd (pas_zip_open initial_state archive_empty).

(** The states after a successful lookup of "a" and of "b" in
    [archive_ab]. *)
Definition st_ab_a : state := snd (pas_zip_find st_ab ZIP_HANDLE name_a).
Definition st_ab_b : state := snd (pas_zip_find st_ab ZIP_HANDLE name_b).

Definition payload_AB : list byte := str "AB".
Definition payload_CD : list byte := str "CD".
Definition payload_XY : list byte := str "XY".

End Fixture.

(** ** Further vocabulary *)

(** The first position the trailer scan visits last: the scan covers the
    start positions from [size - 22] down to this one. *)
Definition scan_window_start (sz : Z) : Z :=
  if sz >? 65557 then sz - 65557 else 0.

(** The module-level storage is consistent: the handle describes its
    buffer and the name buffer has its 512 bytes. *)
Definition state_ok (st : state) : Prop :=
  handle_ok (pas_zip__handle st) /\
  len (pas_zip__name_buf st) = NAME_BUF_SIZE.

(** What the callback of [pas_zip_list] is shown for the record at [p]. *)
Definition list_call (d : list byte) (p : Z) : list byte * Z :=
  (kept_name (cd_stored_name d p), read_u32_le d (p + 24)).

(** The query matches the record at [p]. *)
Definition name_matches (d : list byte) (q : list byte) (p : Z) : bool :=
  bytes_eqb (kept_name (cd_stored_name d p)) (cstr q).

(** The number of bytes [pas_zip_create] stores for a file in its first
    and in its second loop, and for a whole input when no check fails. *)
Definition local_record_size (f : zfile) : Z :=
  34 + strlen (fst f) + u32 (len (snd f)).

Definition central_record_size (f : zfile) : Z := 40 + strlen (fst f).

Definition locals_size (files : list zfile) : Z :=
  fold_right (fun f acc => local_record_size f + acc) 0 files.

Definition centrals_size (files : list zfile) : Z :=
  fold_right (fun f acc => central_record_size f + acc) 0 files.

Definition create_total (files : list zfile) : Z :=
  locals_size files + centrals_size files + 22.

(** Every filename length fits the 16-bit field. *)
Definition names_fit (files : list zfile) : Prop :=
  Forall (fun f : zfile => strlen (fst f) < 65536) files.

(** The fields of an entry record hold values as [parse_cd_entry] stores
    them: 32-bit sizes and offset, a 16-bit method. *)
Definition entry_fields_ok (f : pas_zip_file) : Prop :=
  0 <= compressed_size f < 4294967296 /\
  0 <= uncompressed_size f < 4294967296 /\
  0 <= compression_method f < 65536 /\
  0 <= local_header_offset f < 4294967296.

(** A well-formed archive holding one stored file: its local header (at
    offset 0) with name and payload, its central-directory record, and the
    trailer without comment. *)
Definition single_file_archive (nm payload : list byte) : list byte :=
  Fixture.lfh nm payload
  ++ Fixture.cdh 0 (len payload) (len payload) 0 nm
  ++ Fixture.eocd 1 (46 + len nm) (30 + len nm + len payload) [].

(** More test data. *)
Module Samples.

(** A trailer with directory offset 0 followed by a second trailer whose
    directory offset, 999, is past the 44 bytes of the buffer. *)
Definition archive_bad_tail : list byte :=
  Fixture.eocd 0 0 0 [] ++ Fixture.eocd 0 0 999 [].

(** Three stored files; the second directory record has a broken
    signature. *)
Definition archive_broken_second : list byte :=
  Fixture.lfh Fixture.name_a Fixture.payload_AB
  ++ Fixture.cdh 0 2 2 0 Fixture.name_a
  ++ x00 :: tl (Fixture.cdh 0 2 2 0 Fixture.name_b)
  ++ Fixture.cdh 0 2 2 0 Fixture.name_a_txt
  ++ Fixture.eocd 3 145 33 [].

Definition st_broken_second : state :=
  snd (pas_zip_open initial_state archive_broken_second).

(** The directory lists the name "a" twice, first with size 2 at local
    header offset 0, then with size 5 at offset 7. *)
Definition archive_twice : list byte :=
  Fixture.lfh Fixture.name_a Fixture.payload_AB
  ++ Fixture.cdh 0 2 2 0 Fixture.name_a
  ++ Fixture.cdh 0 5 5 7 Fixture.name_a
  ++ Fixture.eocd 2 94 33 [].

Definition st_twice : state := snd (pas_zip_open initial_state archive_twice).

(** A query of 512 letters. *)
Definition long_query : list byte := repeat x61 512.

(** An entry record as a caller may hold it after a lookup, with the
    method changed. *)
Definition with_method (st : state) (m : Z) : state :=
  mk_state (pas_zip__handle st)
           (mk_pas_zip_file
              (name (pas_zip__current_file st))
              (compressed_size (pas_zip__current_file st))
              (uncompressed_size (pas_zip__current_file st))
              m
              (local_header_offset (pas_zip__current_file st)))
           (pas_zip__name_buf st).



(** A filename of 65536 letters. *)
Definition huge_name : list byte := repeat x61 (Z.to_nat 65536).

End Samples.

(** Closed statements about the test data are settled by evaluation. *)
Ltac by_evaluation :=
  vm_compute;
  repeat match goal with
         | |- _ /\ _ => split
         end;
  first [ reflexivity | discriminate | intro; discriminate ].

(** ** Facts about bytes and the readers *)

Section ReaderFacts.

Lemma b2z_range (b : byte) : 0 <= b2z b < 256.
Proof.
  unfold b2z. pose proof (Byte.to_N_bounded b) as H.
  split; [apply N2Z.is_nonneg | ].
  apply N2Z.inj_le in H. change (Z.of_N 255) with 255 in H. lia.
Qed.

Lemma byte_at_range (d : list byte) (i : Z) : 0 <= byte_at d i < 256.
Proof.
  unfold byte_at. destruct (i <? 0); [lia | apply b2z_range].
Qed.

Lemma lor_below (n a b : Z) :
  0 <= n -> 0 <= a < 2 ^ n -> 0 <= b < 2 ^ n -> 0 <= Z.lor a b < 2 ^ n.
Proof.
  intros Hn Ha Hb. split; [apply Z.lor_nonneg; lia | ].
  destruct (Z.eq_dec a 0) as [-> | Ha0]; [rewrite Z.lor_0_l; lia | ].
  destruct (Z.eq_dec b 0) as [-> | Hb0]; [rewrite Z.lor_0_r; lia | ].
  assert (Hl : 0 < Z.lor a b).
  { assert (0 <= Z.lor a b) by (apply Z.lor_nonneg; lia).
    assert (Z.lor a b <> 0) by (rewrite Z.lor_eq_0_iff; lia). lia. }
  apply Z.log2_lt_pow2; [exact Hl | ].
  rewrite Z.log2_lor by lia.
  apply Z.max_lub_lt; apply Z.log2_lt_pow2; lia.
Qed.

Lemma shifted_byte_range (x k : Z) :
  0 <= k -> 0 <= x < 256 -> 0 <= Z.shiftl x k < 2 ^ (k + 8).
Proof.
  intros Hk Hx. rewrite Z.shiftl_mul_pow2 by lia.
  rewrite Z.pow_add_r by lia. change (2 ^ 8) with 256.
  assert (0 < 2 ^ k) by (apply Z.pow_pos_nonneg; lia). nia.
Qed.

Lemma read_u16_le_range (d : list byte) (p : Z) :
  0 <= read_u16_le d p < 65536.
Proof.
  unfold read_u16_le.
  pose proof (byte_at_range d p).
  pose proof (shifted_byte_range (byte_at d (p + 1)) 8 ltac:(lia)
                                 (byte_at_range d (p + 1))) as H1.
  change (2 ^ (8 + 8)) with 65536 in H1.
  apply (lor_below 16); lia.
Qed.

Lemma read_u32_le_range (d : list byte) (p : Z) :
  0 <= read_u32_le d p < 4294967296.
Proof.
  unfold read_u32_le.
  pose proof (byte_at_range d p).
  pose proof (shifted_byte_range (byte_at d (p + 1)) 8 ltac:(lia)
                                 (byte_at_range d (p + 1))) as H1.
  pose proof (shifted_byte_range (byte_at d (p + 2)) 16 ltac:(lia)
                                 (byte_at_range d (p + 2))) as H2.
  pose proof (shifted_byte_range (byte_at d (p + 3)) 24 ltac:(lia)
                                 (byte_at_range d (p + 3))) as H3.
  change (2 ^ (8 + 8)) with 65536 in H1.
  change (2 ^ (16 + 8)) with 16777216 in H2.
  change (2 ^ (24 + 8)) with 4294967296 in H3.
  apply (lor_below 32); [lia | | lia].
  apply (lor_below 32); [lia | | lia].
  apply (lor_below 32); lia.
Qed.

Lemma usize_small (z : Z) : 0 <= z < 18446744073709551616 -> usize z = z.
Proof. intros H. unfold usize. apply Z.mod_small. exact H. Qed.

End ReaderFacts.

(** ** The trailer scan *)

Section Eocd.

Variable d : list byte.
Variable sz : Z.
Hypothesis sz_fits : sz < 18446744073709551616.

(** The loop leaves through a [return] or the [break] before the counter
    runs out. *)
Lemma find_eocd_loop_returns (fuel : nat) (search_end i : Z) :
  0 <= i -> i + 22 <= sz -> (Z.to_nat i < fuel)%nat ->
  find_eocd_loop fuel d sz search_end i <> None.
Proof.
  revert i. induction fuel as [| fuel IH]; intros i Hi0 Hi Hf; [lia | ].
  cbn [find_eocd_loop].
  rewrite (usize_small (i + 22)) by lia.
  destruct (i + 22 >? sz) eqn:Hg; [lia | ].
  destruct (read_u32_le d i =? PAS_ZIP_EOCD_SIG).
  { destruct (read_u32_le d (i + 16) >=? sz); discriminate. }
  destruct ((i <=? search_end) || (i =? 0)) eqn:Hb; [discriminate | ].
  apply orb_false_iff in Hb. destruct Hb as [_ Hz].
  apply Z.eqb_neq in Hz.
  rewrite (usize_small (i - 1)) by lia.
  apply IH; lia.
Qed.

Lemma find_eocd_run_returns : find_eocd_run d sz <> None.
Proof.
  unfold find_eocd_run. destruct (sz <? 22) eqn:Hs; [discriminate | ].
  apply Z.ltb_ge in Hs.
  apply find_eocd_loop_returns; unfold find_eocd_fuel; lia.
Qed.

(** Started at or after a signature at [t] with no signature in between,
    and with [t] inside the window, the loop decides at [t]. *)
Lemma find_eocd_loop_first_match (k : nat) :
  forall (fuel : nat) (search_end i t : Z),
    0 <= t -> search_end <= t ->
    i = t + Z.of_nat k -> i + 22 <= sz -> (k < fuel)%nat ->
    read_u32_le d t = PAS_ZIP_EOCD_SIG ->
    (forall j, t < j <= i -> read_u32_le d j <> PAS_ZIP_EOCD_SIG) ->
    find_eocd_loop fuel d sz search_end i =
    Some (if read_u32_le d (t + 16) >=? sz then None
          else Some (read_u32_le d (t + 16), read_u16_le d (t + 8))).
Proof.
  induction k as [| k IH]; intros fuel search_end i t Ht Hse Hi Hsz Hf Hsig Hno;
    (destruct fuel as [| fuel]; [lia | ]); cbn [find_eocd_loop];
    rewrite (usize_small (i + 22)) by lia;
    (destruct (i + 22 >? sz) eqn:Hg; [lia | ]).
  - replace i with t by lia. rewrite Hsig, Z.eqb_refl.
    destruct (read_u32_le d (t + 16) >=? sz); reflexivity.
  - assert (Hne : read_u32_le d i <> PAS_ZIP_EOCD_SIG) by (apply Hno; lia).
    apply Z.eqb_neq in Hne. rewrite Hne.
    assert (Hb : (i <=? search_end) || (i =? 0) = false).
    { apply orb_false_iff. split; [apply Z.leb_gt | apply Z.eqb_neq]; lia. }
    rewrite Hb. rewrite (usize_small (i - 1)) by lia.
    apply IH; try lia; try assumption.
    intros j Hj. apply Hno. lia.
Qed.

End Eocd.

(** C5.  When the buffer ends with an end-of-central-directory record at
    [t] (its signature at [t], its comment reaching exactly to the end of
    the buffer, its directory offset below the buffer length) and every
    other occurrence of the signature lies before [t], then [pas_zip_open]
    succeeds and takes [cd_offset] and [num_entries] from the record at [t],
    whatever the bytes before [t] are. *)
Theorem open_resolves_true_trailer (st : state) (d : list byte) (t : Z) :
  len d < 18446744073709551616 ->
  0 <= t ->
  read_u32_le d t = PAS_ZIP_EOCD_SIG ->
  t + 22 + read_u16_le d (t + 20) = len d ->
  read_u32_le d (t + 16) < len d ->
  (forall j, t < j <= len d - 22 -> read_u32_le d j <> PAS_ZIP_EOCD_SIG) ->
  pas_zip_open st d =
  (ZIP_HANDLE, PAS_ZIP_OK,
   mk_state (mk_pas_zip d (len d) (read_u32_le d (t + 16))
                        (read_u16_le d (t + 8)))
            (pas_zip__current_file st) (pas_zip__name_buf st)).
Proof.
  intros Hfit Ht Hsig Hend Hcd Hlast.
  pose proof (read_u16_le_range d (t + 20)) as Hc.
  unfold pas_zip_open.
  destruct (len d <? 22) eqn:Hs; [lia | ].
  unfold find_eocd, find_eocd_run. rewrite Hs.
  rewrite (find_eocd_loop_first_match d (len d) Hfit
             (Z.to_nat (len d - 22 - t)) _ _ _ t);
    [ | lia | | lia | lia | unfold find_eocd_fuel; lia | exact Hsig | ].
  - destruct (read_u32_le d (t + 16) >=? len d) eqn:Hge; [lia | reflexivity].
  - destruct (len d >? 65557) eqn:Hw; lia.
  - intros j Hj. apply Hlast. lia.
Qed.

Lemma open_resolves_true_trailer_witness :
  pas_zip_open initial_state Fixture.archive_decoy =
  (ZIP_HANDLE, PAS_ZIP_OK,
   mk_state (mk_pas_zip Fixture.archive_decoy 130 33 1)
            (pas_zip__current_file initial_state)
            (pas_zip__name_buf initial_state)).
Proof.
  apply (open_resolves_true_trailer initial_state Fixture.archive_decoy 106).
  - vm_compute. reflexivity.
  - lia.
  - vm_compute. reflexivity.
  - vm_compute. reflexivity.
  - vm_compute. reflexivity.
  - intros j Hj. change (len Fixture.archive_decoy) with 130 in Hj.
    assert (Hcases : j = 107 \/ j = 108) by lia.
    destruct Hcases as [-> | ->]; vm_compute; discriminate.
Defined.

(** ** The directory walk *)

Section Strings.

Lemma bytes_eqb_eq (a b : list byte) : bytes_eqb a b = true -> a = b.
Proof.
  revert b. induction a as [| x a IH]; intros [| y b] H; cbn in H;
    try discriminate; [reflexivity | ].
  apply andb_true_iff in H. destruct H as [Hxy Hab].
  apply Byte.byte_dec_bl in Hxy. rewrite Hxy, (IH b Hab). reflexivity.
Qed.

Lemma cstr_app_nul (a r : list byte) : cstr (a ++ x00 :: r) = cstr a.
Proof.
  induction a as [| x a IH]; [reflexivity | ]. cbn.
  destruct (Byte.eqb x x00); [reflexivity | ]. rewrite IH. reflexivity.
Qed.

Lemma cstr_nul_free (a : list byte) : ~ In x00 a -> cstr a = a.
Proof.
  induction a as [| x a IH]; intros H; [reflexivity | ]. cbn.
  destruct (Byte.eqb x x00) eqn:E.
  - apply Byte.byte_dec_bl in E. subst x. exfalso. apply H. left. reflexivity.
  - rewrite IH; [reflexivity | ]. intros Hin. apply H. right. exact Hin.
Qed.

End Strings.

Section Walk.

Variable d : list byte.
Variable end_ : Z.
Hypothesis end_in : end_ <= len d.

(** What a successful parse returns and leaves in the name buffer. *)
Lemma parse_cd_entry_some (p : Z) (nb nb' : list byte) (ent : pas_zip_file) :
  0 <= p ->
  parse_cd_entry d p end_ nb = Some (ent, nb') ->
  cd_record_ok d p end_ /\ ent = cd_entry d p /\
  cstr nb' = kept_name (cd_stored_name d p) /\
  cd_record_okb d p end_ = true.
Proof.
  intros Hp H. unfold parse_cd_entry in H.
  destruct (p + 46 >? end_) eqn:H46; [discriminate | ].
  destruct (read_u32_le d p =? PAS_ZIP_CDH_SIG) eqn:Hsig; [ | discriminate].
  cbn [negb] in H.
  destruct (p + (46 + read_u16_le d (p + 28) + read_u16_le d (p + 30)
                 + read_u16_le d (p + 32)) >? end_) eqn:Hneed;
    [discriminate | ].
  injection H as Hent Hnb.
  apply Z.eqb_eq in Hsig.
  split; [ | split; [ | split]].
  - unfold cd_record_ok, cd_fn_len, cd_extra_len, cd_comment_len. lia.
  - symmetry. exact Hent.
  - subst nb'. unfold store_byte, memcpy, kept_name, cd_stored_name, slice,
      cd_fn_len.
    pose proof (read_u16_le_range d (p + 28)) as Hfn.
    pose proof (read_u16_le_range d (p + 30)) as Hex.
    pose proof (read_u16_le_range d (p + 32)) as Hco.
    set (fn := read_u16_le d (p + 28)) in *.
    set (src := skipn (Z.to_nat (p + 46)) d).
    set (k := Z.to_nat (if fn >=? NAME_BUF_SIZE then _ else _)).
    assert (Hk : k = Nat.min 511 (Z.to_nat fn)).
    { unfold k, NAME_BUF_SIZE. destruct (fn >=? 512) eqn:E.
      - change (u16 511) with 511. lia.
      - lia. }
    assert (Hsrc : (Z.to_nat fn <= List.length src)%nat).
    { unfold src. rewrite length_skipn. unfold len in end_in. lia. }
    assert (Hlen : List.length (firstn k src) = k).
    { apply firstn_length_le. lia. }
    rewrite firstn_app, Hlen, Nat.sub_diag, firstn_O, app_nil_r.
    rewrite firstn_firstn, Nat.min_id.
    rewrite cstr_app_nul.
    rewrite firstn_firstn, <- Hk. reflexivity.
  - unfold cd_record_okb, cd_fn_len, cd_extra_len, cd_comment_len.
    rewrite Hsig, Z.eqb_refl.
    repeat (apply andb_true_iff; split); try reflexivity; lia.
Qed.

(** A walk that looks for [q] and reports success stopped at one of the
    directory's records, whose kept name is [q]. *)
Lemma cd_iterate_loop_hit (q : list byte) (cb : bool) (n : nat) :
  forall (p : Z) (nb : list byte) (calls : list (list byte * Z)),
    0 <= p ->
    it_ret (cd_iterate_loop d end_ (Some q) cb n p nb calls) = true ->
    exists p',
      In p' (cd_records d end_ n p) /\ cd_record_ok d p' end_ /\
      it_out (cd_iterate_loop d end_ (Some q) cb n p nb calls)
      = Some (cd_entry d p') /\
      cstr (it_name_buf (cd_iterate_loop d end_ (Some q) cb n p nb calls))
      = kept_name (cd_stored_name d p') /\
      kept_name (cd_stored_name d p') = cstr q.
Proof.
  induction n as [| n IH]; intros p nb calls Hp Hret;
    cbn [cd_iterate_loop cd_records] in *.
  - discriminate.
  - destruct (p <? end_); [ | discriminate].
    destruct (parse_cd_entry d p end_ nb) as [[ent nb'] | ] eqn:Hparse;
      [ | discriminate].
    destruct (parse_cd_entry_some p nb nb' ent Hp Hparse)
      as (Hok & Hent & Hnm & Hokb).
    rewrite Hokb. cbn [andb].
    destruct (strcmp_eq nb' q) eqn:Hcmp.
    + exists p. cbn [it_ret it_out it_name_buf].
      split; [left; reflexivity | ]. split; [exact Hok | ].
      split; [rewrite Hent; reflexivity | ].
      split; [exact Hnm | ].
      rewrite <- Hnm. apply bytes_eqb_eq. exact Hcmp.
    + destruct (IH (p + cd_advance d p) nb'
                  (if cb then calls ++ [(cstr nb', uncompressed_size ent)]
                   else calls)) as (p' & Hin & Hrest).
      * pose proof (read_u16_le_range d (p + 28)).
        pose proof (read_u16_le_range d (p + 30)).
        pose proof (read_u16_le_range d (p + 32)).
        unfold cd_advance, cd_fn_len, cd_extra_len, cd_comment_len. lia.
      * exact Hret.
      * exists p'. split; [right; exact Hin | exact Hrest].
Qed.

(** A listing walk never stores an entry through [out]. *)
Lemma cd_iterate_loop_list_out (cb : bool) (n : nat) :
  forall (p : Z) (nb : list byte) (calls : list (list byte * Z)),
    it_out (cd_iterate_loop d end_ None cb n p nb calls) = None.
Proof.
  induction n as [| n IH]; intros p nb calls; cbn [cd_iterate_loop].
  - reflexivity.
  - destruct (p <? end_); [ | reflexivity].
    destruct (parse_cd_entry d p end_ nb) as [[ent nb'] | ]; [ | reflexivity].
    apply IH.
Qed.

End Walk.

(** ** Lookup *)

Lemma open_handle_ok (st st' : state) (d : list byte) (s : pas_zip_status) :
  pas_zip_open st d = (ZIP_HANDLE, s, st') ->
  handle_ok (pas_zip__handle st') /\ data (pas_zip__handle st') = d.
Proof.
  unfold pas_zip_open. destruct (len d <? 22); [discriminate | ].
  destruct (find_eocd d (len d)) as [[cdo num] | ] eqn:Hf; [ | discriminate].
  intros H. injection H as _ Hst. subst st'. cbn.
  split; [ | reflexivity]. split; [reflexivity | ]. cbn.
  unfold find_eocd, find_eocd_run in Hf.
  destruct (len d <? 22); [discriminate | ].
  revert Hf. generalize (find_eocd_fuel (len d)) as fuel.
  generalize (len d - 22) as i. intros i fuel. revert i.
  induction fuel as [| fuel IH]; intros i; cbn [find_eocd_loop];
    [discriminate | ].
  destruct (usize (i + 22) >? len d); [apply IH | ].
  destruct (read_u32_le d i =? PAS_ZIP_EOCD_SIG).
  - destruct (read_u32_le d (i + 16) >=? len d); [discriminate | ].
    intros H. injection H as Hc _. subst cdo.
    apply read_u32_le_range.
  - destruct ((i <=? _) || (i =? 0)); [discriminate | apply IH].
Qed.

Lemma find_hit_record (st st' : state) (q : list byte) :
  handle_ok (pas_zip__handle st) ->
  pas_zip_find st ZIP_HANDLE q = (FILE_CURRENT, st') ->
  exists p,
    In p (handle_records (pas_zip__handle st)) /\
    cd_record_ok (data (pas_zip__handle st)) p (size (pas_zip__handle st)) /\
    pas_zip__current_file st' = cd_entry (data (pas_zip__handle st)) p /\
    cstr (pas_zip__name_buf st')
    = kept_name (cd_stored_name (data (pas_zip__handle st)) p) /\
    kept_name (cd_stored_name (data (pas_zip__handle st)) p) = cstr q.
Proof.
  intros [Hsz Hcd] H. unfold pas_zip_find, cd_iterate in H.
  set (r := cd_iterate_loop _ _ _ _ _ _ _ _) in H.
  destruct (it_ret r) eqn:Hret; [ | discriminate].
  injection H as Hst.
  destruct (cd_iterate_loop_hit (data (pas_zip__handle st))
              (size (pas_zip__handle st)) ltac:(lia) q false
              (Z.to_nat (num_entries (pas_zip__handle st)))
              (cd_offset (pas_zip__handle st)) (pas_zip__name_buf st) []
              Hcd Hret) as (p & Hp & Hok & Hout & Hnb & Hq).
  fold r in Hout, Hnb.
  exists p. subst st'. cbn. rewrite Hout.
  repeat (split; [assumption || reflexivity | ]). exact Hq.
Qed.

(** C6, as the code has it.  [pas_zip_find] returns an entry only when the
    query equals the name kept from one of the central-directory entries:
    the stored name cut to its first 511 bytes and at its first NUL byte,
    compared byte for byte with no normalization; for a stored name shorter
    than 512 bytes without a NUL byte this is the full stored name.  When
    no central-directory entry's kept name equals the query,
    [pas_zip_find] returns NULL. *)
Theorem find_matches_kept_name (st : state) (q : list byte) :
  handle_ok (pas_zip__handle st) ->
  (forall st',
      pas_zip_find st ZIP_HANDLE q = (FILE_CURRENT, st') ->
      exists p,
        In p (handle_records (pas_zip__handle st)) /\
        kept_name (cd_stored_name (data (pas_zip__handle st)) p) = cstr q /\
        pas_zip_name st' FILE_CURRENT = Some (cstr q) /\
        (cd_fn_len (data (pas_zip__handle st)) p < 512 ->
         ~ In x00 (cd_stored_name (data (pas_zip__handle st)) p) ->
         cd_stored_name (data (pas_zip__handle st)) p = cstr q)) /\
  ((forall p,
       In p (handle_records (pas_zip__handle st)) ->
       kept_name (cd_stored_name (data (pas_zip__handle st)) p) <> cstr q) ->
   fst (pas_zip_find st ZIP_HANDLE q) = FILE_NULL).
Proof.
  intros Hok. split.
  - intros st' Hfind.
    destruct (find_hit_record st st' q Hok Hfind)
      as (p & Hin & Hrec & Hcur & Hnb & Hq).
    exists p. split; [exact Hin | ]. split; [exact Hq | ]. split.
    + cbn. rewrite Hcur. cbn. rewrite Hnb, Hq. reflexivity.
    + intros Hshort Hnul. rewrite <- Hq. unfold kept_name.
      rewrite firstn_all2.
      * symmetry. apply cstr_nul_free. exact Hnul.
      * unfold cd_stored_name, slice. rewrite length_firstn.
        pose proof (read_u16_le_range (data (pas_zip__handle st)) (p + 28)).
        unfold cd_fn_len in *. lia.
  - intros Hnone.
    destruct (pas_zip_find st ZIP_HANDLE q) as [[ | ] st'] eqn:Hfind;
      [reflexivity | ].
    destruct (find_hit_record st st' q Hok Hfind)
      as (p & Hin & Hrec & Hcur & Hnb & Hq).
    exfalso. exact (Hnone p Hin Hq).
Qed.

Lemma find_matches_kept_name_witness :
  handle_ok (pas_zip__handle Fixture.st_ab) /\
  (forall st',
      pas_zip_find Fixture.st_ab ZIP_HANDLE Fixture.name_b
      = (FILE_CURRENT, st') ->
      exists p,
        In p (handle_records (pas_zip__handle Fixture.st_ab)) /\
        kept_name (cd_stored_name Fixture.archive_ab p) = Fixture.name_b /\
        pas_zip_name st' FILE_CURRENT = Some Fixture.name_b /\
        (cd_fn_len Fixture.archive_ab p < 512 ->
         ~ In x00 (cd_stored_name Fixture.archive_ab p) ->
         cd_stored_name Fixture.archive_ab p = Fixture.name_b)) /\
  fst (pas_zip_find Fixture.st_ab ZIP_HANDLE Fixture.name_b) = FILE_CURRENT /\
  handle_records (pas_zip__handle Fixture.st_ab) = [66; 113].
Proof.
  assert (Hok : handle_ok (pas_zip__handle Fixture.st_ab)) by by_evaluation.
  split; [exact Hok | ]. split; [ | by_evaluation].
  exact (proj1 (find_matches_kept_name Fixture.st_ab Fixture.name_b Hok)).
Defined.

(** C6 fails as stated: the only central-directory entry stores a name of
    512 bytes, the query has 511, and [pas_zip_find] returns an entry. *)
Lemma find_truncated_name_false_positive :
  handle_records (pas_zip__handle Fixture.st_long) = [0] /\
  cd_stored_name Fixture.archive_long 0 = Fixture.long_name /\
  Fixture.long_name <> Fixture.short_query /\
  fst (pas_zip_find Fixture.st_long ZIP_HANDLE Fixture.short_query)
  = FILE_CURRENT.
Proof.
  split; [by_evaluation | ]. split; [by_evaluation | ].
  split; [ | by_evaluation].
  intros H. apply (f_equal (@List.length byte)) in H.
  vm_compute in H. discriminate.
Qed.

(** C7, as the code has it.  Every entry [pas_zip_find] produces carries
    the method and the two sizes exactly as one central-directory entry
    stores them (u16 at offset 10, u32 at offsets 20 and 24), each size below 2^32
    and none of them checked; so a Store entry has
    [compressed_size = uncompressed_size] exactly when the record stores
    equal sizes. *)
Theorem find_entry_sizes_from_record (st st' : state) (q : list byte) :
  handle_ok (pas_zip__handle st) ->
  pas_zip_find st ZIP_HANDLE q = (FILE_CURRENT, st') ->
  exists p,
    In p (handle_records (pas_zip__handle st)) /\
    compression_method (pas_zip__current_file st')
    = read_u16_le (data (pas_zip__handle st)) (p + 10) /\
    compressed_size (pas_zip__current_file st')
    = read_u32_le (data (pas_zip__handle st)) (p + 20) /\
    uncompressed_size (pas_zip__current_file st')
    = read_u32_le (data (pas_zip__handle st)) (p + 24) /\
    0 <= compressed_size (pas_zip__current_file st') < 4294967296 /\
    0 <= uncompressed_size (pas_zip__current_file st') < 4294967296 /\
    (compression_method (pas_zip__current_file st') = PAS_ZIP_METHOD_STORE ->
     (compressed_size (pas_zip__current_file st')
      = uncompressed_size (pas_zip__current_file st') <->
      read_u32_le (data (pas_zip__handle st)) (p + 20)
      = read_u32_le (data (pas_zip__handle st)) (p + 24))).
Proof.
  intros Hok Hfind.
  destruct (find_hit_record st st' q Hok Hfind)
    as (p & Hin & _ & Hcur & _ & _).
  exists p. rewrite Hcur. cbn.
  split; [exact Hin | ].
  repeat (split; [reflexivity || apply read_u32_le_range | ]).
  intros _. reflexivity.
Qed.

Lemma find_entry_sizes_from_record_witness :
  exists p,
    In p (handle_records (pas_zip__handle Fixture.st_ab)) /\
    compression_method
      (pas_zip__current_file
         (snd (pas_zip_find Fixture.st_ab ZIP_HANDLE Fixture.name_b)))
    = read_u16_le Fixture.archive_ab (p + 10).
Proof.
  destruct (find_entry_sizes_from_record Fixture.st_ab
              (snd (pas_zip_find Fixture.st_ab ZIP_HANDLE Fixture.name_b))
              Fixture.name_b)
    as (p & Hrec & Hm & _).
  - by_evaluation.
  - vm_compute. reflexivity.
  - exists p. split; [exact Hrec | exact Hm].
Defined.

(** C7 fails as stated: the entry found for "a" is a Store entry with
    compressed size 1 and uncompressed size 2. *)
Lemma find_store_entry_unequal_sizes :
  let r := pas_zip_find Fixture.st_skew ZIP_HANDLE Fixture.name_a in
  fst r = FILE_CURRENT /\
  compression_method (pas_zip__current_file (snd r)) = PAS_ZIP_METHOD_STORE /\
  compressed_size (pas_zip__current_file (snd r)) = 1 /\
  uncompressed_size (pas_zip__current_file (snd r)) = 2.
Proof. by_evaluation. Qed.

(** ** The returned entry and later calls *)

(** C9, as the code has it.  The entry [pas_zip_find] returns is the
    module-level record [pas_zip__current_file] and its name is the
    module-level buffer [pas_zip__name_buf].  From any state [st] (in
    particular the one a successful find leaves): a later [pas_zip_list]
    and a later [pas_zip_find] that returns NULL leave the record's fields
    unchanged, and a later find or list that parses no directory record
    also leaves the name bytes unchanged. *)
Theorem entry_kept_by_later_calls (st : state) (zip : zip_ptr) :
  (forall cb,
      pas_zip__current_file (snd (pas_zip_list st zip cb))
      = pas_zip__current_file st) /\
  (forall q,
      fst (pas_zip_find st zip q) = FILE_NULL ->
      pas_zip__current_file (snd (pas_zip_find st zip q))
      = pas_zip__current_file st) /\
  (parses_no_record st ->
   forall q cb,
     pas_zip__name_buf (snd (pas_zip_find st zip q)) = pas_zip__name_buf st /\
     pas_zip__name_buf (snd (pas_zip_list st zip cb)) = pas_zip__name_buf st).
Proof.
  split; [ | split].
  - intros cb. destruct zip; [reflexivity | ]. cbn.
    destruct cb; reflexivity.
  - intros q. destruct zip; [reflexivity | ]. cbn.
    destruct (it_ret _); [discriminate | reflexivity].
  - intros Hno q cb. destruct zip; [split; reflexivity | ].
    assert (Hwalk : forall fnm c calls,
               it_name_buf
                 (cd_iterate_loop (data (pas_zip__handle st))
                    (size (pas_zip__handle st)) fnm c
                    (Z.to_nat (num_entries (pas_zip__handle st)))
                    (cd_offset (pas_zip__handle st))
                    (pas_zip__name_buf st) calls)
               = pas_zip__name_buf st).
    { intros fnm c calls.
      destruct (Z.to_nat (num_entries (pas_zip__handle st))) as [| n] eqn:Hn;
        cbn [cd_iterate_loop]; [reflexivity | ].
      destruct Hno as [Hz | [Hoff | Hparse]]; [lia | | ].
      - destruct (cd_offset (pas_zip__handle st) <? size (pas_zip__handle st))
          eqn:Hlt; [lia | reflexivity].
      - rewrite Hparse.
        destruct (cd_offset (pas_zip__handle st) <? size (pas_zip__handle st));
          reflexivity. }
    split.
    + cbn. unfold cd_iterate. destruct (it_ret _); cbn; apply Hwalk.
    + cbn. destruct cb; [ | reflexivity]. cbn. unfold cd_iterate. apply Hwalk.
Qed.

Lemma entry_kept_by_later_calls_witness :
  parses_no_record Fixture.st_empty /\
  pas_zip__name_buf
    (snd (pas_zip_find Fixture.st_empty ZIP_HANDLE Fixture.name_a))
  = pas_zip__name_buf Fixture.st_empty /\
  pas_zip__current_file
    (snd (pas_zip_find Fixture.st_ab ZIP_HANDLE Fixture.name_a_txt))
  = pas_zip__current_file Fixture.st_ab.
Proof.
  assert (Hno : parses_no_record Fixture.st_empty).
  { left. vm_compute. discriminate. }
  split; [exact Hno | ]. split.
  - exact (proj1 (proj2 (proj2 (entry_kept_by_later_calls
                                  Fixture.st_empty ZIP_HANDLE))
                    Hno Fixture.name_a true)).
  - apply (proj1 (proj2 (entry_kept_by_later_calls Fixture.st_ab ZIP_HANDLE))).
    vm_compute. reflexivity.
Defined.

(** C9 fails as stated: the entry returned for "a" reads as "b" at local
    header offset 33 after a later find for "b", and its name reads as "b"
    after a later listing. *)
Lemma found_entry_overwritten_by_later_calls :
  let r1 := pas_zip_find Fixture.st_ab ZIP_HANDLE Fixture.name_a in
  let r2 := pas_zip_find (snd r1) ZIP_HANDLE Fixture.name_b in
  let r3 := pas_zip_list (snd r1) ZIP_HANDLE true in
  fst r1 = FILE_CURRENT /\
  pas_zip_name (snd r1) (fst r1) = Some Fixture.name_a /\
  local_header_offset (pas_zip__current_file (snd r1)) = 0 /\
  pas_zip_name (snd r2) (fst r1) = Some Fixture.name_b /\
  local_header_offset (pas_zip__current_file (snd r2)) = 33 /\
  pas_zip_name (snd r3) (fst r1) = Some Fixture.name_b.
Proof. by_evaluation. Qed.

(** ** Extraction *)

(** C8.  For a Store entry whose local header is valid and whose payload
    lies inside the archive, with equal sizes: extraction into a
    destination of exactly [uncompressed_size] bytes succeeds, returns
    [uncompressed_size] and fills the destination; extraction into any
    smaller destination returns 0 with status NoSpace and leaves the
    destination as it was. *)
Theorem extract_nospace_boundary (st : state) :
  handle_ok (pas_zip__handle st) ->
  size (pas_zip__handle st) < 18446744073709551616 ->
  compression_method (pas_zip__current_file st) = PAS_ZIP_METHOD_STORE ->
  compressed_size (pas_zip__current_file st)
  = uncompressed_size (pas_zip__current_file st) ->
  0 <= compressed_size (pas_zip__current_file st) ->
  local_header_ok (data (pas_zip__handle st)) (size (pas_zip__handle st))
                  (local_header_offset (pas_zip__current_file st))
                  (compressed_size (pas_zip__current_file st)) ->
  (forall buffer,
      len buffer = uncompressed_size (pas_zip__current_file st) ->
      exists out,
        pas_zip_extract st FILE_CURRENT buffer
        = (uncompressed_size (pas_zip__current_file st), PAS_ZIP_OK, out) /\
        len out = uncompressed_size (pas_zip__current_file st)) /\
  (forall buffer,
      len buffer < uncompressed_size (pas_zip__current_file st) ->
      pas_zip_extract st FILE_CURRENT buffer
      = (0, PAS_ZIP_E_NOSPACE, buffer)).
Proof.
  intros [Hsz _] Hfit Hm Heq Hc (Hoff & H30 & Hsig & Hpay).
  set (f := pas_zip__current_file st) in *.
  set (d := data (pas_zip__handle st)) in *.
  set (sz := size (pas_zip__handle st)) in *.
  pose proof (read_u16_le_range d (local_header_offset f + 26)) as Hfn.
  pose proof (read_u16_le_range d (local_header_offset f + 28)) as Hex.
  assert (Hskip : skip_local_header d sz (local_header_offset f)
                  = 30 + read_u16_le d (local_header_offset f + 26)
                    + read_u16_le d (local_header_offset f + 28)).
  { unfold skip_local_header.
    assert (Hw : u32 (local_header_offset f + 30) <= local_header_offset f + 30).
    { unfold u32. apply Z.mod_le; lia. }
    destruct (u32 (local_header_offset f + 30) >? sz) eqn:Hg; [lia | ].
    rewrite Hsig, Z.eqb_refl. reflexivity. }
  assert (Hhead : forall buffer,
             pas_zip_extract st FILE_CURRENT buffer =
             if len buffer <? uncompressed_size f
             then (0, PAS_ZIP_E_NOSPACE, buffer)
             else (uncompressed_size f, PAS_ZIP_OK,
                   memcpy buffer
                     (skipn (Z.to_nat (skip_local_header d sz
                                         (local_header_offset f))) d)
                     (compressed_size f))).
  { intros buffer. cbn [pas_zip_extract]. unfold extract_from.
    fold f d sz. rewrite Hskip.
    set (po := 30 + _ + _) in *.
    destruct (po =? 0) eqn:Hz; [lia | ].
    rewrite usize_small by lia.
    destruct (po + compressed_size f >? sz) eqn:Hb; [lia | ].
    destruct (len buffer <? uncompressed_size f); [reflexivity | ].
    rewrite Hm, Z.eqb_refl. reflexivity. }
  split; intros buffer Hlen; rewrite Hhead.
  - destruct (len buffer <? uncompressed_size f) eqn:Hlt; [lia | ].
    eexists. split; [reflexivity | ].
    unfold memcpy, len in *. rewrite length_app, length_firstn, !length_skipn.
    rewrite Hskip. fold d in Hsz. lia.
  - destruct (len buffer <? uncompressed_size f) eqn:Hlt; [reflexivity | lia].
Qed.

Lemma extract_nospace_boundary_witness :
  (exists out,
      pas_zip_extract Fixture.st_ab_b FILE_CURRENT (zeros 2)
      = (uncompressed_size (pas_zip__current_file Fixture.st_ab_b),
         PAS_ZIP_OK, out) /\
      len out = uncompressed_size (pas_zip__current_file Fixture.st_ab_b)) /\
  pas_zip_extract Fixture.st_ab_b FILE_CURRENT (zeros 1)
  = (0, PAS_ZIP_E_NOSPACE, zeros 1).
Proof.
  destruct (extract_nospace_boundary Fixture.st_ab_b) as [Hfit Hsmall].
  - by_evaluation.
  - vm_compute. reflexivity.
  - vm_compute. reflexivity.
  - vm_compute. reflexivity.
  - vm_compute. discriminate.
  - unfold local_header_ok. by_evaluation.
  - split.
    + apply Hfit. vm_compute. reflexivity.
    + apply Hsmall. vm_compute. reflexivity.
Defined.

(** The fields of a found entry are 32-bit and 16-bit values. *)
Lemma find_entry_fields_ok (st st' : state) (q : list byte) :
  handle_ok (pas_zip__handle st) ->
  pas_zip_find st ZIP_HANDLE q = (FILE_CURRENT, st') ->
  entry_fields_ok (pas_zip__current_file st').
Proof.
  intros Hok Hfind.
  destruct (find_hit_record st st' q Hok Hfind) as (p & _ & _ & Hcur & _).
  rewrite Hcur. unfold entry_fields_ok, cd_entry. cbn.
  repeat split;
    try apply read_u32_le_range; apply read_u16_le_range.
Qed.

(** [extract_from], case by case, for an entry whose header check does not
    wrap: where the header is looked for, what is compared with the size
    of the archive, and which bytes are copied. *)
Lemma extract_from_cases (d : list byte) (sz : Z) (f : pas_zip_file)
    (buffer : list byte) :
  entry_fields_ok f ->
  header_check_wraps sz (local_header_offset f) = false ->
  let off := local_header_offset f in
  let po := 30 + read_u16_le d (off + 26) + read_u16_le d (off + 28) in
  (sz < off + 30 ->
   extract_from d sz f buffer = (0, PAS_ZIP_E_INVALID, buffer)) /\
  (off + 30 <= sz -> read_u32_le d off <> PAS_ZIP_LFH_SIG ->
   extract_from d sz f buffer = (0, PAS_ZIP_E_INVALID, buffer)) /\
  (off + 30 <= sz -> read_u32_le d off = PAS_ZIP_LFH_SIG ->
   sz < po + compressed_size f ->
   extract_from d sz f buffer = (0, PAS_ZIP_E_INVALID, buffer)) /\
  (off + 30 <= sz -> read_u32_le d off = PAS_ZIP_LFH_SIG ->
   po + compressed_size f <= sz ->
   len buffer < uncompressed_size f ->
   extract_from d sz f buffer = (0, PAS_ZIP_E_NOSPACE, buffer)) /\
  (off + 30 <= sz -> read_u32_le d off = PAS_ZIP_LFH_SIG ->
   po + compressed_size f <= sz ->
   uncompressed_size f <= len buffer ->
   compression_method f = PAS_ZIP_METHOD_STORE ->
   extract_from d sz f buffer
   = (uncompressed_size f, PAS_ZIP_OK,
      slice d po (compressed_size f)
      ++ skipn (Z.to_nat (compressed_size f)) buffer)) /\
  (off + 30 <= sz -> read_u32_le d off = PAS_ZIP_LFH_SIG ->
   po + compressed_size f <= sz ->
   uncompressed_size f <= len buffer ->
   compression_method f = PAS_ZIP_METHOD_DEFLATE ->
   extract_from d sz f buffer = (0, PAS_ZIP_E_COMPRESSED, buffer)) /\
  (off + 30 <= sz -> read_u32_le d off = PAS_ZIP_LFH_SIG ->
   po + compressed_size f <= sz ->
   uncompressed_size f <= len buffer ->
   compression_method f <> PAS_ZIP_METHOD_STORE ->
   compression_method f <> PAS_ZIP_METHOD_DEFLATE ->
   extract_from d sz f buffer = (0, PAS_ZIP_E_INVALID, buffer)).
Proof.
  intros (Hcs & Hus & Hm & Hoff) Hwrap off po.
  pose proof (read_u16_le_range d (off + 26)) as Hfn.
  pose proof (read_u16_le_range d (off + 28)) as Hex.
  assert (Hu : u32 (off + 30) <= off + 30)
    by (unfold u32; apply Z.mod_le; unfold off; lia).
  unfold header_check_wraps in Hwrap. fold off in Hwrap.
  assert (Hfar : sz < off + 30 -> (u32 (off + 30) >? sz) = true).
  { intros Hlt. destruct (u32 (off + 30) >? sz); [reflexivity | ].
    cbn [negb andb] in Hwrap. apply Z.ltb_ge in Hwrap. lia. }
  assert (Hnear : off + 30 <= sz -> (u32 (off + 30) >? sz) = false).
  { intros Hle. destruct (Z.gtb_spec (u32 (off + 30)) sz); [lia | reflexivity]. }
  assert (Hskip : off + 30 <= sz -> read_u32_le d off = PAS_ZIP_LFH_SIG ->
                  skip_local_header d sz off = po).
  { intros Hle Hsig. unfold skip_local_header.
    rewrite (Hnear Hle), Hsig, Z.eqb_refl. reflexivity. }
  assert (Hpo : (po =? 0) = false) by (apply Z.eqb_neq; unfold po; lia).
  assert (Hsum : usize (po + compressed_size f) = po + compressed_size f)
    by (apply usize_small; unfold po; lia).
  unfold extract_from. fold off.
  split; [ | split; [ | split; [ | split; [ | split; [ | split]]]]].
  - intros Hlt. unfold skip_local_header. rewrite (Hfar Hlt). reflexivity.
  - intros Hle Hsig. unfold skip_local_header. rewrite (Hnear Hle).
    apply Z.eqb_neq in Hsig. rewrite Hsig. reflexivity.
  - intros Hle Hsig Hlong. rewrite (Hskip Hle Hsig), Hpo, Hsum.
    destruct (Z.gtb_spec (po + compressed_size f) sz); [reflexivity | lia].
  - intros Hle Hsig Hin Hsmall. rewrite (Hskip Hle Hsig), Hpo, Hsum.
    destruct (Z.gtb_spec (po + compressed_size f) sz); [lia | ].
    destruct (Z.ltb_spec (len buffer) (uncompressed_size f));
      [reflexivity | lia].
  - intros Hle Hsig Hin Hcap Hst. rewrite (Hskip Hle Hsig), Hpo, Hsum.
    destruct (Z.gtb_spec (po + compressed_size f) sz); [lia | ].
    destruct (Z.ltb_spec (len buffer) (uncompressed_size f)); [lia | ].
    rewrite Hst, Z.eqb_refl. reflexivity.
  - intros Hle Hsig Hin Hcap Hdf. rewrite (Hskip Hle Hsig), Hpo, Hsum.
    destruct (Z.gtb_spec (po + compressed_size f) sz); [lia | ].
    destruct (Z.ltb_spec (len buffer) (uncompressed_size f)); [lia | ].
    rewrite Hdf. reflexivity.
  - intros Hle Hsig Hin Hcap Hns Hnd. rewrite (Hskip Hle Hsig), Hpo, Hsum.
    destruct (Z.gtb_spec (po + compressed_size f) sz); [lia | ].
    destruct (Z.ltb_spec (len buffer) (uncompressed_size f)); [lia | ].
    apply Z.eqb_neq in Hns. apply Z.eqb_neq in Hnd. rewrite Hns, Hnd.
    reflexivity.
Qed.

(** C10.  [pas_zip_extract] works on the buffer of the last successful
    [pas_zip_open], not on the archive its entry came from.  Let an entry
    be found in one archive and another buffer [B] be opened successfully
    afterwards, the entry's header check not wrapping for the length of
    [B].  The entry's fields are as found.  Extraction then checks the
    entry's header offset against the length of [B], compares the four
    bytes of [B] at that offset with the local signature, takes the name
    and extra lengths from [B], checks the payload end against the length
    of [B], and for a Store entry copies the payload bytes out of [B]. *)
Theorem extract_reads_last_opened
    (stA stA' stB : state) (q B buffer : list byte) :
  handle_ok (pas_zip__handle stA) ->
  pas_zip_find stA ZIP_HANDLE q = (FILE_CURRENT, stA') ->
  pas_zip_open stA' B = (ZIP_HANDLE, PAS_ZIP_OK, stB) ->
  header_check_wraps (len B)
    (local_header_offset (pas_zip__current_file stA')) = false ->
  let e := pas_zip__current_file stA' in
  let off := local_header_offset e in
  let po := 30 + read_u16_le B (off + 26) + read_u16_le B (off + 28) in
  pas_zip__current_file stB = e /\
  (len B < off + 30 ->
   pas_zip_extract stB FILE_CURRENT buffer = (0, PAS_ZIP_E_INVALID, buffer)) /\
  (off + 30 <= len B -> read_u32_le B off <> PAS_ZIP_LFH_SIG ->
   pas_zip_extract stB FILE_CURRENT buffer = (0, PAS_ZIP_E_INVALID, buffer)) /\
  (off + 30 <= len B -> read_u32_le B off = PAS_ZIP_LFH_SIG ->
   len B < po + compressed_size e ->
   pas_zip_extract stB FILE_CURRENT buffer = (0, PAS_ZIP_E_INVALID, buffer)) /\
  (off + 30 <= len B -> read_u32_le B off = PAS_ZIP_LFH_SIG ->
   po + compressed_size e <= len B ->
   len buffer < uncompressed_size e ->
   pas_zip_extract stB FILE_CURRENT buffer = (0, PAS_ZIP_E_NOSPACE, buffer)) /\
  (off + 30 <= len B -> read_u32_le B off = PAS_ZIP_LFH_SIG ->
   po + compressed_size e <= len B ->
   uncompressed_size e <= len buffer ->
   compression_method e = PAS_ZIP_METHOD_STORE ->
   pas_zip_extract stB FILE_CURRENT buffer
   = (uncompressed_size e, PAS_ZIP_OK,
      slice B po (compressed_size e)
      ++ skipn (Z.to_nat (compressed_size e)) buffer)) /\
  (off + 30 <= len B -> read_u32_le B off = PAS_ZIP_LFH_SIG ->
   po + compressed_size e <= len B ->
   uncompressed_size e <= len buffer ->
   compression_method e = PAS_ZIP_METHOD_DEFLATE ->
   pas_zip_extract stB FILE_CURRENT buffer
   = (0, PAS_ZIP_E_COMPRESSED, buffer)) /\
  (off + 30 <= len B -> read_u32_le B off = PAS_ZIP_LFH_SIG ->
   po + compressed_size e <= len B ->
   uncompressed_size e <= len buffer ->
   compression_method e <> PAS_ZIP_METHOD_STORE ->
   compression_method e <> PAS_ZIP_METHOD_DEFLATE ->
   pas_zip_extract stB FILE_CURRENT buffer = (0, PAS_ZIP_E_INVALID, buffer)).
Proof.
  intros HokA Hfind Hopen Hwrap e off po.
  pose proof (find_entry_fields_ok stA stA' q HokA Hfind) as Hfields.
  unfold pas_zip_open in Hopen.
  destruct (len B <? 22); [discriminate | ].
  destruct (find_eocd B (len B)) as [[cdo num] | ]; [ | discriminate].
  injection Hopen as Hst. subst stB.
  cbn [pas_zip_extract pas_zip__handle pas_zip__current_file data size].
  split; [reflexivity | ].
  exact (extract_from_cases B (len B) e buffer Hfields Hwrap).
Qed.

Lemma extract_reads_last_opened_witness :
  pas_zip_extract (snd (pas_zip_open Fixture.st_ab_a Fixture.archive_xy))
                  FILE_CURRENT (zeros 2)
  = (uncompressed_size (pas_zip__current_file Fixture.st_ab_a), PAS_ZIP_OK,
     slice Fixture.archive_xy
           (30 + read_u16_le Fixture.archive_xy
                   (local_header_offset
                      (pas_zip__current_file Fixture.st_ab_a) + 26)
            + read_u16_le Fixture.archive_xy
                (local_header_offset
                   (pas_zip__current_file Fixture.st_ab_a) + 28))
           (compressed_size (pas_zip__current_file Fixture.st_ab_a))
     ++ skipn (Z.to_nat (compressed_size
                           (pas_zip__current_file Fixture.st_ab_a)))
              (zeros 2)).
Proof.
  destruct (extract_reads_last_opened Fixture.st_ab Fixture.st_ab_a
              (snd (pas_zip_open Fixture.st_ab_a Fixture.archive_xy))
              Fixture.name_a Fixture.archive_xy (zeros 2))
    as (_ & _ & _ & _ & _ & Hstore & _).
  - by_evaluation.
  - vm_compute. reflexivity.
  - vm_compute. reflexivity.
  - vm_compute. reflexivity.
  - apply Hstore.
    + vm_compute. discriminate.
    + vm_compute. reflexivity.
    + vm_compute. discriminate.
    + vm_compute. discriminate.
    + vm_compute. reflexivity.
Defined.

(** The entry found for "a" in [archive_ab] yields "AB" while that archive
    is the open one and "XY" once [archive_xy] has been opened. *)
Example extract_after_reopen :
  pas_zip_extract Fixture.st_ab_a FILE_CURRENT (zeros 2)
  = (2, PAS_ZIP_OK, Fixture.payload_AB) /\
  pas_zip_extract (snd (pas_zip_open Fixture.st_ab_a Fixture.archive_xy))
                  FILE_CURRENT (zeros 2)
  = (2, PAS_ZIP_OK, Fixture.payload_XY).
Proof. by_evaluation. Qed.

(** A failed [pas_zip_open] leaves the handle as it was. *)
Lemma open_failure_keeps_state (st st' : state) (d : list byte)
    (s : pas_zip_status) :
  pas_zip_open st d = (ZIP_NULL, s, st') -> st' = st /\ s = PAS_ZIP_E_INVALID.
Proof.
  unfold pas_zip_open. destruct (len d <? 22).
  - intros H. injection H as Hs Hst. split; congruence.
  - destruct (find_eocd d (len d)) as [[cdo num] | ]; [discriminate | ].
    intros H. injection H as Hs Hst. split; congruence.
Qed.

(** C2 on the code.  In [archive_ab] the entry "b" has its local header at
    33, valid, with a name of 1 byte and no extra field, so its payload
    "CD" starts at 33 + 30 + 1 + 0 = 64.  [pas_zip_extract] copies the two
    bytes at 31 instead, the payload "AB" of the entry "a". *)
Theorem extract_ignores_local_header_offset :
  fst (pas_zip_find Fixture.st_ab ZIP_HANDLE Fixture.name_b) = FILE_CURRENT /\
  compression_method (pas_zip__current_file Fixture.st_ab_b)
  = PAS_ZIP_METHOD_STORE /\
  compressed_size (pas_zip__current_file Fixture.st_ab_b) = 2 /\
  local_header_offset (pas_zip__current_file Fixture.st_ab_b) = 33 /\
  local_header_ok Fixture.archive_ab 182 33 2 /\
  read_u16_le Fixture.archive_ab (33 + 26) = 1 /\
  read_u16_le Fixture.archive_ab (33 + 28) = 0 /\
  slice Fixture.archive_ab (33 + 30 + 1 + 0) 2 = Fixture.payload_CD /\
  slice Fixture.archive_ab (30 + 1 + 0) 2 = Fixture.payload_AB /\
  pas_zip_extract Fixture.st_ab_b FILE_CURRENT (zeros 2)
  = (2, PAS_ZIP_OK, Fixture.payload_AB).
Proof. unfold local_header_ok. by_evaluation. Qed.

(** ** The writer *)

(** Every early return of [pas_zip_create] reports zero bytes. *)
Lemma create_failure_returns_zero (files : list zfile) (buffer_size : Z) :
  cr_status (pas_zip_create files buffer_size) <> PAS_ZIP_OK ->
  cr_ret (pas_zip_create files buffer_size) = 0.
Proof.
  unfold pas_zip_create.
  destruct (Z.of_nat (List.length files) <=? 0); [reflexivity | ].
  destruct (create_locals files buffer_size []) as [[s out] | out1];
    [reflexivity | ].
  destruct (create_central files files 0 buffer_size 0 out1)
    as [[s out] | [cd_size out2]]; [reflexivity | ].
  destruct (usize (len out2 + 22) >? buffer_size); [reflexivity | ].
  cbn. intros H. exfalso. apply H. reflexivity.
Qed.

(** The fixed part of a local record has 34 bytes and that of a directory
    record 40, whatever the lengths written into them. *)
Lemma local_header_bytes_length (fn_len sz : Z) :
  len (local_header_bytes fn_len sz) = 34.
Proof. reflexivity. Qed.

Lemma central_header_bytes_length (fn_len local_off : Z) :
  len (central_header_bytes fn_len local_off) = 40.
Proof. reflexivity. Qed.

Lemma trailer_bytes_length (file_count cd_size cd_offset : Z) :
  len (trailer_bytes file_count cd_size cd_offset) = 22.
Proof. reflexivity. Qed.

(** C1 on the code.  For the two files of the scenario and a destination
    of 256 bytes, [pas_zip_create] succeeds with 196 bytes and
    [pas_zip_open] accepts them with two entries, but [pas_zip_find] finds
    neither "a.txt" nor "b.bin": no payload comes back. *)
Theorem create_open_find_scenario :
  let r := pas_zip_create Fixture.scenario 256 in
  let o := pas_zip_open initial_state (cr_stored r) in
  cr_status r = PAS_ZIP_OK /\
  cr_ret r = 196 /\
  len (cr_stored r) = 196 /\
  fst o = (ZIP_HANDLE, PAS_ZIP_OK) /\
  num_entries (pas_zip__handle (snd o)) = 2 /\
  cd_offset (pas_zip__handle (snd o)) = 84 /\
  fst (pas_zip_find (snd o) ZIP_HANDLE Fixture.name_a_txt) = FILE_NULL /\
  fst (pas_zip_find (snd o) ZIP_HANDLE Fixture.name_b_bin) = FILE_NULL.
Proof. by_evaluation. Qed.

(** C3 on the code.  In the archive written for the scenario the first
    local header is followed by the name at byte 34, not 30; bytes 18..21
    hold 0, the sizes sit at 22 and 26 and the name length at 30.  The
    first directory record starts at 84 and the second 45 bytes later
    (a fixed part of 40 bytes plus the name of 5), with 0 at offsets 20 and
    28, the name length at 24 and the local header offset at 36; the
    trailer follows at 174 and declares a directory size of 102 for the 90
    bytes written. *)
Theorem create_scenario_layout :
  let a := cr_stored (pas_zip_create Fixture.scenario 256) in
  cr_status (pas_zip_create Fixture.scenario 256) = PAS_ZIP_OK /\
  (read_u32_le a 0 = PAS_ZIP_LFH_SIG /\
   slice a 34 5 = Fixture.name_a_txt /\
   slice a 30 5 <> Fixture.name_a_txt /\
   read_u32_le a 18 = 0 /\
   read_u32_le a 22 = 2 /\
   read_u32_le a 26 = 2 /\
   read_u16_le a 26 = 2 /\
   read_u16_le a 30 = 5) /\
  (read_u32_le a 84 = PAS_ZIP_CDH_SIG /\
   read_u32_le a (84 + 45) = PAS_ZIP_CDH_SIG /\
   read_u32_le a (84 + 51) <> PAS_ZIP_CDH_SIG /\
   slice a (84 + 40) 5 = Fixture.name_a_txt /\
   read_u32_le a (84 + 20) = 0 /\
   read_u16_le a (84 + 28) = 0 /\
   read_u16_le a (84 + 24) = 5 /\
   read_u32_le a (129 + 36) = 37 /\
   read_u32_le a (129 + 42) <> 37) /\
  (read_u32_le a 174 = PAS_ZIP_EOCD_SIG /\
   read_u32_le a (174 + 12) = 102 /\
   len a = 174 + 22).
Proof. by_evaluation. Qed.

(** C4 on the code.  For one file named "a" with an empty payload and a
    destination of 31 bytes, the check of the first loop passes
    (30 + 1 + 0 <= 31) and the iteration stores 35 bytes, four of them past
    the capacity; the check of the second loop then fails and the call
    returns 0 with status NoSpace. *)
Theorem create_stores_past_capacity :
  let r := pas_zip_create [(Fixture.name_a, [])] 31 in
  cr_ret r = 0 /\
  cr_status r = PAS_ZIP_E_NOSPACE /\
  len (cr_stored r) = 35 /\
  31 < len (cr_stored r).
Proof. by_evaluation. Qed.

(** * Further properties of the reader and the writer *)

(** ** Little-endian fields *)

Lemma b2z_z2b (z : Z) : b2z (z2b z) = z mod 256.
Proof.
  unfold b2z, z2b.
  assert (Hr : 0 <= z mod 256 < 256) by (apply Z.mod_pos_bound; lia).
  destruct (Byte.of_N (Z.to_N (z mod 256))) as [b | ] eqn:E.
  - apply Byte.to_of_N in E. rewrite E. apply Z2N.id. lia.
  - apply Byte.of_N_None_iff in E. lia.
Qed.

Lemma byte_at_app_right (pre l : list byte) (i : Z) :
  0 <= i -> byte_at (pre ++ l) (len pre + i) = byte_at l i.
Proof.
  intros Hi. unfold byte_at, len.
  destruct (Z.of_nat (List.length pre) + i <? 0) eqn:E1;
    [apply Z.ltb_lt in E1; lia | ].
  destruct (i <? 0) eqn:E2; [apply Z.ltb_lt in E2; lia | ].
  replace (Z.to_nat (Z.of_nat (List.length pre) + i))
    with (List.length pre + Z.to_nat i)%nat by lia.
  rewrite app_nth2_plus. reflexivity.
Qed.

Lemma byte_at_app_left (l post : list byte) (i : Z) :
  0 <= i < len l -> byte_at (l ++ post) i = byte_at l i.
Proof.
  intros Hi. unfold byte_at, len in *.
  destruct (i <? 0) eqn:E; [apply Z.ltb_lt in E; lia | ].
  rewrite app_nth1 by lia. reflexivity.
Qed.

Lemma read_u16_le_app_right (pre l : list byte) (i : Z) :
  0 <= i -> read_u16_le (pre ++ l) (len pre + i) = read_u16_le l i.
Proof.
  intros Hi. unfold read_u16_le.
  rewrite <- Z.add_assoc, !byte_at_app_right by lia. reflexivity.
Qed.

Lemma read_u32_le_app_right (pre l : list byte) (i : Z) :
  0 <= i -> read_u32_le (pre ++ l) (len pre + i) = read_u32_le l i.
Proof.
  intros Hi. unfold read_u32_le.
  rewrite <- !Z.add_assoc, !byte_at_app_right by lia. reflexivity.
Qed.

Lemma read_u16_le_app_left (l post : list byte) (i : Z) :
  0 <= i -> i + 2 <= len l -> read_u16_le (l ++ post) i = read_u16_le l i.
Proof.
  intros Hi Hl. unfold read_u16_le. rewrite !byte_at_app_left by lia.
  reflexivity.
Qed.

Lemma read_u32_le_app_left (l post : list byte) (i : Z) :
  0 <= i -> i + 4 <= len l -> read_u32_le (l ++ post) i = read_u32_le l i.
Proof.
  intros Hi Hl. unfold read_u32_le. rewrite !byte_at_app_left by lia.
  reflexivity.
Qed.

Lemma read_u16_le_le16 (z : Z) : read_u16_le (le16 z) 0 = u16 z.
Proof.
  unfold read_u16_le.
  change (byte_at (le16 z) 0) with (b2z (z2b z)).
  change (byte_at (le16 z) (0 + 1)) with (b2z (z2b (Z.shiftr z 8))).
  rewrite !b2z_z2b. unfold u16.
  change 65536 with (2 ^ 16). change 256 with (2 ^ 8).
  apply Z.bits_inj'. intros n Hn.
  rewrite Z.lor_spec, Z.shiftl_spec by lia.
  destruct (Z_lt_dec n 8) as [H8 | H8].
  - rewrite (Z.mod_pow2_bits_low z 16 n) by lia.
    rewrite (Z.mod_pow2_bits_low z 8 n) by lia.
    rewrite (Z.testbit_neg_r _ (n - 8)) by lia. apply orb_false_r.
  - rewrite (Z.mod_pow2_bits_high z 8 n) by lia. cbn [orb].
    destruct (Z_lt_dec n 16) as [H16 | H16].
    + rewrite (Z.mod_pow2_bits_low z 16 n) by lia.
      rewrite (Z.mod_pow2_bits_low _ 8 (n - 8)) by lia.
      rewrite Z.shiftr_spec by lia. f_equal. lia.
    + rewrite (Z.mod_pow2_bits_high z 16 n) by lia.
      rewrite (Z.mod_pow2_bits_high _ 8 (n - 8)) by lia. reflexivity.
Qed.

(** One byte of a little-endian field, bit by bit. *)
Lemma shifted_byte_bit (z k n : Z) :
  0 <= k -> 0 <= n ->
  Z.testbit (Z.shiftl (Z.shiftr z k mod 2 ^ 8) k) n
  = if (k <=? n) && (n <? k + 8) then Z.testbit z n else false.
Proof.
  intros Hk Hn. rewrite Z.shiftl_spec by lia.
  destruct (k <=? n) eqn:E1; cbn [andb].
  - apply Z.leb_le in E1. destruct (n <? k + 8) eqn:E2.
    + apply Z.ltb_lt in E2. rewrite Z.mod_pow2_bits_low by lia.
      rewrite Z.shiftr_spec by lia. f_equal. lia.
    + apply Z.ltb_ge in E2. apply Z.mod_pow2_bits_high. lia.
  - apply Z.leb_gt in E1. apply Z.testbit_neg_r. lia.
Qed.

Lemma read_u32_le_le32 (z : Z) : read_u32_le (le32 z) 0 = u32 z.
Proof.
  unfold read_u32_le.
  change (byte_at (le32 z) 0) with (b2z (z2b z)).
  change (byte_at (le32 z) (0 + 1)) with (b2z (z2b (Z.shiftr z 8))).
  change (byte_at (le32 z) (0 + 2)) with (b2z (z2b (Z.shiftr z 16))).
  change (byte_at (le32 z) (0 + 3)) with (b2z (z2b (Z.shiftr z 24))).
  rewrite !b2z_z2b. unfold u32.
  change 4294967296 with (2 ^ 32). change 256 with (2 ^ 8).
  apply Z.bits_inj'. intros n Hn.
  rewrite !Z.lor_spec, !shifted_byte_bit by lia.
  destruct (Z_lt_dec n 32) as [H32 | H32].
  - rewrite (Z.mod_pow2_bits_low z 32 n) by lia.
    destruct (Z_lt_dec n 8) as [H8 | H8].
    + rewrite (Z.mod_pow2_bits_low z 8 n) by lia.
      replace (8 <=? n) with false by (symmetry; apply Z.leb_gt; lia).
      replace (16 <=? n) with false by (symmetry; apply Z.leb_gt; lia).
      replace (24 <=? n) with false by (symmetry; apply Z.leb_gt; lia).
      cbn [andb]. rewrite !orb_false_r. reflexivity.
    + rewrite (Z.mod_pow2_bits_high z 8 n) by lia. cbn [orb].
      destruct (Z_lt_dec n 16) as [H16 | H16].
      * replace (8 <=? n) with true by (symmetry; apply Z.leb_le; lia).
        replace (n <? 8 + 8) with true by (symmetry; apply Z.ltb_lt; lia).
        replace (16 <=? n) with false by (symmetry; apply Z.leb_gt; lia).
        replace (24 <=? n) with false by (symmetry; apply Z.leb_gt; lia).
        cbn [andb]. rewrite !orb_false_r. reflexivity.
      * replace (n <? 8 + 8) with false by (symmetry; apply Z.ltb_ge; lia).
        rewrite andb_false_r. cbn [orb].
        destruct (Z_lt_dec n 24) as [H24 | H24].
        -- replace (16 <=? n) with true by (symmetry; apply Z.leb_le; lia).
           replace (n <? 16 + 8) with true by (symmetry; apply Z.ltb_lt; lia).
           replace (24 <=? n) with false by (symmetry; apply Z.leb_gt; lia).
           cbn [andb]. rewrite !orb_false_r. reflexivity.
        -- replace (n <? 16 + 8) with false by (symmetry; apply Z.ltb_ge; lia).
           rewrite andb_false_r. cbn [orb].
           replace (24 <=? n) with true by (symmetry; apply Z.leb_le; lia).
           replace (n <? 24 + 8) with true by (symmetry; apply Z.ltb_lt; lia).
           reflexivity.
  - rewrite (Z.mod_pow2_bits_high z 32 n) by lia.
    rewrite (Z.mod_pow2_bits_high z 8 n) by lia.
    replace (n <? 8 + 8) with false by (symmetry; apply Z.ltb_ge; lia).
    replace (n <? 16 + 8) with false by (symmetry; apply Z.ltb_ge; lia).
    replace (n <? 24 + 8) with false by (symmetry; apply Z.ltb_ge; lia).
    rewrite !andb_false_r. reflexivity.
Qed.

(** X1.  A 16-bit or 32-bit field stored the way the writer stores it
    (low byte first, each byte a cast of a shift) is read back by the
    reader, at any position of any buffer, as the value reduced to the
    width of the field. *)
Theorem stored_field_reads_back (pre post : list byte) (z : Z) :
  read_u16_le (pre ++ le16 z ++ post) (len pre) = u16 z /\
  read_u32_le (pre ++ le32 z ++ post) (len pre) = u32 z.
Proof.
  split.
  - replace (len pre) with (len pre + 0) by lia.
    rewrite read_u16_le_app_right by lia.
    rewrite read_u16_le_app_left by (cbn; lia).
    apply read_u16_le_le16.
  - replace (len pre) with (len pre + 0) by lia.
    rewrite read_u32_le_app_right by lia.
    rewrite read_u32_le_app_left by (cbn; lia).
    apply read_u32_le_le32.
Qed.

(** ** More on the trailer scan *)

Section EocdMore.

Variable d : list byte.
Variable sz : Z.
Hypothesis sz_fits : sz < 18446744073709551616.

(** Without a signature between [search_end] and [i] the loop ends at the
    [break]. *)
Lemma find_eocd_loop_no_match (k : nat) :
  forall (fuel : nat) (search_end i : Z),
    0 <= search_end -> i = search_end + Z.of_nat k -> i + 22 <= sz ->
    (k < fuel)%nat ->
    (forall j, search_end <= j <= i -> read_u32_le d j <> PAS_ZIP_EOCD_SIG) ->
    find_eocd_loop fuel d sz search_end i = Some None.
Proof.
  induction k as [| k IH]; intros fuel search_end i Hse Hi Hsz Hf Hno;
    (destruct fuel as [| fuel]; [lia | ]); cbn [find_eocd_loop];
    rewrite (usize_small (i + 22)) by lia;
    (destruct (i + 22 >? sz) eqn:Hg; [lia | ]);
    (assert (Hne : read_u32_le d i <> PAS_ZIP_EOCD_SIG) by (apply Hno; lia));
    apply Z.eqb_neq in Hne; rewrite Hne.
  - assert (Hb : (i <=? search_end) = true) by (apply Z.leb_le; lia).
    rewrite Hb. reflexivity.
  - assert (Hb : (i <=? search_end) || (i =? 0) = false).
    { apply orb_false_iff. split; [apply Z.leb_gt | apply Z.eqb_neq]; lia. }
    rewrite Hb. rewrite (usize_small (i - 1)) by lia.
    apply IH; try lia. intros j Hj. apply Hno. lia.
Qed.

(** A successful scan stopped at the signature closest to the end. *)
Lemma find_eocd_loop_found (fuel : nat) :
  forall (search_end i cdo num : Z),
    0 <= search_end <= i -> i + 22 <= sz ->
    find_eocd_loop fuel d sz search_end i = Some (Some (cdo, num)) ->
    exists t,
      search_end <= t <= i /\
      read_u32_le d t = PAS_ZIP_EOCD_SIG /\
      (forall j, t < j <= i -> read_u32_le d j <> PAS_ZIP_EOCD_SIG) /\
      cdo = read_u32_le d (t + 16) /\ num = read_u16_le d (t + 8) /\
      cdo < sz.
Proof.
  induction fuel as [| fuel IH]; intros search_end i cdo num Hse Hsz H;
    cbn [find_eocd_loop] in H; [discriminate | ].
  rewrite (usize_small (i + 22)) in H by lia.
  destruct (i + 22 >? sz) eqn:Hg; [lia | ].
  destruct (read_u32_le d i =? PAS_ZIP_EOCD_SIG) eqn:Hsig.
  - apply Z.eqb_eq in Hsig.
    destruct (read_u32_le d (i + 16) >=? sz) eqn:Hge; [discriminate | ].
    injection H as Hc Hn. exists i.
    split; [lia | ]. split; [exact Hsig | ]. split; [intros j Hj; lia | ].
    split; [congruence | ]. split; [congruence | lia].
  - apply Z.eqb_neq in Hsig.
    destruct ((i <=? search_end) || (i =? 0)) eqn:Hb; [discriminate | ].
    apply orb_false_iff in Hb. destruct Hb as [Hb1 Hb2].
    apply Z.leb_gt in Hb1. apply Z.eqb_neq in Hb2.
    rewrite (usize_small (i - 1)) in H by lia.
    destruct (IH search_end (i - 1) cdo num ltac:(lia) ltac:(lia) H)
      as (t & Ht & Hs & Hno & Hrest).
    exists t. split; [lia | ]. split; [exact Hs | ]. split; [ | exact Hrest].
    intros j Hj. destruct (Z.eq_dec j i) as [-> | Hji]; [exact Hsig | ].
    apply Hno. lia.
Qed.

End EocdMore.

Lemma scan_window_start_bounds (sz : Z) :
  22 <= sz -> 0 <= scan_window_start sz <= sz - 22.
Proof.
  intros H. unfold scan_window_start.
  destruct (sz >? 65557) eqn:E; lia.
Qed.

(** X2.  What a successful [pas_zip_open] guarantees: the status is OK, the
    handle describes the buffer, the directory offset is below the buffer
    length, the entry count is a 16-bit value, both come from the
    signature closest to the end inside the scan window, and the rest of
    the module state is untouched. *)
Theorem open_success_facts (st st' : state) (d : list byte)
    (s : pas_zip_status) :
  len d < 18446744073709551616 ->
  pas_zip_open st d = (ZIP_HANDLE, s, st') ->
  s = PAS_ZIP_OK /\
  data (pas_zip__handle st') = d /\
  size (pas_zip__handle st') = len d /\
  22 <= len d /\
  0 <= cd_offset (pas_zip__handle st') < len d /\
  0 <= num_entries (pas_zip__handle st') < 65536 /\
  pas_zip__current_file st' = pas_zip__current_file st /\
  pas_zip__name_buf st' = pas_zip__name_buf st /\
  exists t,
    scan_window_start (len d) <= t <= len d - 22 /\
    read_u32_le d t = PAS_ZIP_EOCD_SIG /\
    (forall j, t < j <= len d - 22 -> read_u32_le d j <> PAS_ZIP_EOCD_SIG) /\
    cd_offset (pas_zip__handle st') = read_u32_le d (t + 16) /\
    num_entries (pas_zip__handle st') = read_u16_le d (t + 8).
Proof.
  intros Hfit H. unfold pas_zip_open in H.
  destruct (len d <? 22) eqn:Hs; [discriminate | ].
  apply Z.ltb_ge in Hs.
  destruct (find_eocd d (len d)) as [[cdo num] | ] eqn:Hf; [ | discriminate].
  injection H as Hstat Hst. subst st'. cbn.
  unfold find_eocd, find_eocd_run in Hf.
  destruct (len d <? 22) eqn:Hs'; [apply Z.ltb_lt in Hs'; lia | ].
  fold (scan_window_start (len d)) in Hf.
  pose proof (scan_window_start_bounds (len d) Hs) as Hw.
  destruct (find_eocd_loop _ d (len d) _ _) as [[r | ] | ] eqn:Hloop;
    try discriminate.
  injection Hf as Hr. subst r.
  destruct (find_eocd_loop_found d (len d) Hfit (find_eocd_fuel (len d))
              (scan_window_start (len d)) (len d - 22) cdo num
              ltac:(lia) ltac:(lia) Hloop)
    as (t & Ht & Hsig & Hno & Hc & Hn & Hlt).
  pose proof (read_u32_le_range d (t + 16)).
  pose proof (read_u16_le_range d (t + 8)).
  repeat (split; [congruence || lia | ]).
  exists t. repeat (split; [assumption | ]). exact Hn.
Qed.

Lemma open_success_facts_witness :
  cd_offset (pas_zip__handle Fixture.st_ab) < len Fixture.archive_ab /\
  pas_zip__name_buf Fixture.st_ab = pas_zip__name_buf initial_state.
Proof.
  destruct (open_success_facts initial_state Fixture.st_ab Fixture.archive_ab
              PAS_ZIP_OK) as (_ & _ & _ & _ & Hc & _ & _ & Hn & _).
  - vm_compute. reflexivity.
  - vm_compute. reflexivity.
  - split; [apply Hc | exact Hn].
Defined.

(** X3.  Without a signature at any start position of the scan window
    (from [size - 22] down to [size - 65557], or to 0 for a shorter
    buffer) [pas_zip_open] fails with status Invalid and leaves the module
    state alone, whatever lies before the window; a buffer shorter than 22
    bytes is such a case. *)
Theorem open_fails_without_signature (st : state) (d : list byte) :
  len d < 18446744073709551616 ->
  (forall j, scan_window_start (len d) <= j <= len d - 22 ->
             read_u32_le d j <> PAS_ZIP_EOCD_SIG) ->
  pas_zip_open st d = (ZIP_NULL, PAS_ZIP_E_INVALID, st).
Proof.
  intros Hfit Hno. unfold pas_zip_open.
  destruct (len d <? 22) eqn:Hs; [reflexivity | ].
  apply Z.ltb_ge in Hs.
  unfold find_eocd, find_eocd_run.
  destruct (len d <? 22) eqn:Hs'; [apply Z.ltb_lt in Hs'; lia | ].
  fold (scan_window_start (len d)).
  pose proof (scan_window_start_bounds (len d) Hs) as Hw.
  rewrite (find_eocd_loop_no_match d (len d) Hfit
             (Z.to_nat (len d - 22 - scan_window_start (len d))));
    [reflexivity | lia | lia | lia | unfold find_eocd_fuel; lia | exact Hno].
Qed.

(** X4.  The scan stops at the signature closest to the end: when the
    record there declares a directory offset that is not below the buffer
    length, [pas_zip_open] fails, and no earlier record is tried. *)
Theorem open_fails_on_bad_directory_offset (st : state) (d : list byte)
    (t : Z) :
  len d < 18446744073709551616 ->
  scan_window_start (len d) <= t <= len d - 22 ->
  read_u32_le d t = PAS_ZIP_EOCD_SIG ->
  (forall j, t < j <= len d - 22 -> read_u32_le d j <> PAS_ZIP_EOCD_SIG) ->
  len d <= read_u32_le d (t + 16) ->
  pas_zip_open st d = (ZIP_NULL, PAS_ZIP_E_INVALID, st).
Proof.
  intros Hfit Ht Hsig Hlast Hbad.
  assert (Hs : 22 <= len d).
  { unfold scan_window_start in Ht. destruct (len d >? 65557) eqn:E; lia. }
  pose proof (scan_window_start_bounds (len d) Hs) as Hw.
  unfold pas_zip_open.
  destruct (len d <? 22) eqn:Hs'; [reflexivity | ].
  unfold find_eocd, find_eocd_run. rewrite Hs'.
  fold (scan_window_start (len d)).
  rewrite (find_eocd_loop_first_match d (len d) Hfit
             (Z.to_nat (len d - 22 - t)) _ _ _ t);
    [ | lia | lia | lia | lia | unfold find_eocd_fuel; lia | exact Hsig
      | intros j Hj; apply Hlast; lia ].
  destruct (read_u32_le d (t + 16) >=? len d) eqn:Hge; [reflexivity | lia].
Qed.

Lemma open_fails_without_signature_witness :
  pas_zip_open Fixture.st_ab (zeros 24)
  = (ZIP_NULL, PAS_ZIP_E_INVALID, Fixture.st_ab).
Proof.
  apply (open_fails_without_signature Fixture.st_ab (zeros 24)).
  - vm_compute. reflexivity.
  - intros j Hj.
    change (scan_window_start (len (zeros 24))) with 0 in Hj.
    change (len (zeros 24)) with 24 in Hj.
    assert (Hcases : j = 0 \/ j = 1 \/ j = 2) by lia.
    destruct Hcases as [-> | [-> | ->]]; vm_compute; discriminate.
Defined.

Lemma open_fails_on_bad_directory_offset_witness :
  pas_zip_open initial_state Samples.archive_bad_tail
  = (ZIP_NULL, PAS_ZIP_E_INVALID, initial_state).
Proof.
  apply (open_fails_on_bad_directory_offset initial_state
           Samples.archive_bad_tail 22).
  - vm_compute. reflexivity.
  - vm_compute. split; discriminate.
  - vm_compute. reflexivity.
  - intros j Hj. change (len Samples.archive_bad_tail) with 44 in Hj. lia.
  - vm_compute. discriminate.
Defined.

(** ** More on the directory walk *)

Section WalkMore.

Variable d : list byte.
Variable end_ : Z.
Hypothesis end_in : end_ <= len d.

Lemma parse_cd_entry_rejects (p : Z) (nb : list byte) :
  cd_record_okb d p end_ = false -> parse_cd_entry d p end_ nb = None.
Proof.
  unfold cd_record_okb, parse_cd_entry, cd_fn_len, cd_extra_len,
    cd_comment_len.
  intros H.
  destruct (Z.gtb_spec (p + 46) end_) as [H46 | H46]; [reflexivity | ].
  destruct (read_u32_le d p =? PAS_ZIP_CDH_SIG) eqn:Hsig; [ | reflexivity].
  cbn [negb].
  destruct (Z.gtb_spec (p + (46 + read_u16_le d (p + 28)
                             + read_u16_le d (p + 30)
                             + read_u16_le d (p + 32))) end_)
    as [Hn | Hn]; [reflexivity | ].
  exfalso.
  assert (E1 : (p + 46 <=? end_) = true) by (apply Z.leb_le; lia).
  assert (E2 : (p + (46 + read_u16_le d (p + 28) + read_u16_le d (p + 30)
                     + read_u16_le d (p + 32)) <=? end_) = true)
    by (apply Z.leb_le; lia).
  rewrite E1, E2 in H. discriminate.
Qed.

Lemma parse_cd_entry_accepts (p : Z) (nb : list byte) :
  cd_record_okb d p end_ = true ->
  exists ent nb', parse_cd_entry d p end_ nb = Some (ent, nb').
Proof.
  unfold cd_record_okb, parse_cd_entry, cd_fn_len, cd_extra_len,
    cd_comment_len.
  intros H. apply andb_true_iff in H. destruct H as [H H3].
  apply andb_true_iff in H. destruct H as [H1 H2].
  apply Z.leb_le in H1. apply Z.leb_le in H3.
  destruct (Z.gtb_spec (p + 46) end_) as [H46 | H46]; [lia | ].
  rewrite H2. cbn [negb].
  destruct (Z.gtb_spec (p + (46 + read_u16_le d (p + 28)
                             + read_u16_le d (p + 30)
                             + read_u16_le d (p + 32))) end_)
    as [Hn | Hn]; [lia | ].
  eexists. eexists. reflexivity.
Qed.

Lemma cd_advance_nonneg (p : Z) : 0 <= cd_advance d p.
Proof.
  unfold cd_advance, cd_fn_len, cd_extra_len, cd_comment_len.
  pose proof (read_u16_le_range d (p + 28)).
  pose proof (read_u16_le_range d (p + 30)).
  pose proof (read_u16_le_range d (p + 32)). lia.
Qed.

Lemma cd_records_length (n : nat) :
  forall p, (List.length (cd_records d end_ n p) <= n)%nat.
Proof.
  induction n as [| n IH]; intros p; cbn [cd_records]; [cbn; lia | ].
  destruct ((p <? end_) && cd_record_okb d p end_); cbn [List.length].
  - specialize (IH (p + cd_advance d p)). lia.
  - lia.
Qed.

(** A listing walk shows the callback the directory's records, one call
    each and in order, and succeeds when none of the counted records is
    missing. *)
Lemma cd_iterate_loop_list (n : nat) :
  forall (p : Z) (nb : list byte) (calls : list (list byte * Z)),
    0 <= p ->
    it_calls (cd_iterate_loop d end_ None true n p nb calls)
    = calls ++ map (list_call d) (cd_records d end_ n p) /\
    (List.length (cd_records d end_ n p) = n ->
     it_ret (cd_iterate_loop d end_ None true n p nb calls) = true).
Proof.
  induction n as [| n IH]; intros p nb calls Hp;
    cbn [cd_iterate_loop cd_records].
  - cbn. rewrite app_nil_r. split; reflexivity.
  - destruct (p <? end_) eqn:Hlt; cbn [andb].
    + destruct (cd_record_okb d p end_) eqn:Hokb.
      * destruct (parse_cd_entry_accepts p nb Hokb) as (ent & nb' & Hparse).
        rewrite Hparse.
        destruct (parse_cd_entry_some d end_ end_in p nb nb' ent Hp Hparse)
          as (_ & Hent & Hnm & _).
        pose proof (cd_advance_nonneg p) as Hadv.
        destruct (IH (p + cd_advance d p) nb'
                     (calls ++ [(cstr nb', uncompressed_size ent)])
                     ltac:(lia)) as [Hcalls Hret].
        unfold cd_advance, cd_fn_len, cd_extra_len, cd_comment_len in *.
        split.
        -- rewrite Hcalls, <- app_assoc. cbn [map app].
           rewrite Hnm, Hent. reflexivity.
        -- cbn [List.length]. intros Hlen. apply Hret. lia.
      * rewrite (parse_cd_entry_rejects p nb Hokb). cbn.
        rewrite app_nil_r. split; [reflexivity | discriminate].
    + cbn. rewrite app_nil_r. split; [reflexivity | discriminate].
Qed.

(** A walk that looks for [q] stops at the first record of the directory
    whose kept name is [q], and fails when there is none. *)
Lemma cd_iterate_loop_find (q : list byte) (n : nat) :
  forall (p : Z) (nb : list byte) (calls : list (list byte * Z)),
    0 <= p ->
    match List.find (name_matches d q) (cd_records d end_ n p) with
    | Some p0 =>
        it_ret (cd_iterate_loop d end_ (Some q) false n p nb calls) = true /\
        it_out (cd_iterate_loop d end_ (Some q) false n p nb calls)
        = Some (cd_entry d p0) /\
        cstr (it_name_buf (cd_iterate_loop d end_ (Some q) false n p nb calls))
        = kept_name (cd_stored_name d p0)
    | None =>
        it_ret (cd_iterate_loop d end_ (Some q) false n p nb calls) = false
    end.
Proof.
  induction n as [| n IH]; intros p nb calls Hp;
    cbn [cd_iterate_loop cd_records List.find].
  - reflexivity.
  - destruct (p <? end_) eqn:Hlt; cbn [andb List.find]; [ | reflexivity].
    destruct (cd_record_okb d p end_) eqn:Hokb; cbn [List.find].
    + destruct (parse_cd_entry_accepts p nb Hokb) as (ent & nb' & Hparse).
      rewrite Hparse.
      destruct (parse_cd_entry_some d end_ end_in p nb nb' ent Hp Hparse)
        as (_ & Hent & Hnm & _).
      unfold strcmp_eq. rewrite Hnm. fold (name_matches d q p).
      destruct (name_matches d q p).
      * cbn. rewrite Hent. repeat split. exact Hnm.
      * pose proof (cd_advance_nonneg p) as Hadv.
        apply (IH (p + cd_advance d p) nb' calls). lia.
    + rewrite (parse_cd_entry_rejects p nb Hokb). reflexivity.
Qed.

(** The name buffer keeps its size through a parse. *)
Lemma parse_cd_entry_name_buf_length (p : Z) (nb nb' : list byte)
    (ent : pas_zip_file) :
  0 <= p -> len nb = NAME_BUF_SIZE ->
  parse_cd_entry d p end_ nb = Some (ent, nb') ->
  len nb' = NAME_BUF_SIZE.
Proof.
  intros Hp Hlen H. unfold parse_cd_entry in H.
  destruct (Z.gtb_spec (p + 46) end_) as [H46 | H46]; [discriminate | ].
  destruct (read_u32_le d p =? PAS_ZIP_CDH_SIG); [ | discriminate].
  cbn [negb] in H.
  destruct (Z.gtb_spec (p + (46 + read_u16_le d (p + 28)
                             + read_u16_le d (p + 30)
                             + read_u16_le d (p + 32))) end_)
    as [Hn | Hn]; [discriminate | ].
  injection H as _ Hnb. subst nb'.
  pose proof (read_u16_le_range d (p + 28)) as Hfn.
  pose proof (read_u16_le_range d (p + 30)) as Hex.
  pose proof (read_u16_le_range d (p + 32)) as Hco.
  set (fn := read_u16_le d (p + 28)) in *.
  set (k := if fn >=? NAME_BUF_SIZE then _ else _).
  assert (Hk : 0 <= k <= 511 /\ k <= fn).
  { unfold k, NAME_BUF_SIZE. destruct (Z.geb_spec fn 512).
    - change (u16 511) with 511. lia.
    - lia. }
  unfold store_byte, memcpy, len, NAME_BUF_SIZE in *.
  rewrite length_app. cbn [List.length].
  rewrite length_firstn, length_skipn, !length_app, length_firstn,
    !length_skipn.
  lia.
Qed.

Lemma cd_iterate_loop_name_buf_length (fnm : option (list byte)) (cb : bool)
    (n : nat) :
  forall (p : Z) (nb : list byte) (calls : list (list byte * Z)),
    0 <= p -> len nb = NAME_BUF_SIZE ->
    len (it_name_buf (cd_iterate_loop d end_ fnm cb n p nb calls))
    = NAME_BUF_SIZE.
Proof.
  induction n as [| n IH]; intros p nb calls Hp Hlen; cbn [cd_iterate_loop].
  - exact Hlen.
  - destruct (p <? end_); [ | exact Hlen].
    destruct (parse_cd_entry d p end_ nb) as [[ent nb'] | ] eqn:Hparse;
      [ | exact Hlen].
    pose proof (parse_cd_entry_name_buf_length p nb nb' ent Hp Hlen Hparse)
      as Hlen'.
    destruct (match fnm with Some q => strcmp_eq nb' q | None => false end);
      [exact Hlen' | ].
    apply IH; [ | exact Hlen'].
    pose proof (cd_advance_nonneg p) as Hadv.
    unfold cd_advance, cd_fn_len, cd_extra_len, cd_comment_len in Hadv. lia.
Qed.

End WalkMore.

Lemma open_failure_keeps_state_aux (st st' : state) (d : list byte)
    (s : pas_zip_status) :
  pas_zip_open st d = (ZIP_NULL, s, st') -> st' = st.
Proof.
  unfold pas_zip_open. destruct (len d <? 22).
  - intros H. injection H as _ Hst. congruence.
  - destruct (find_eocd d (len d)) as [[cdo num] | ]; [discriminate | ].
    intros H. injection H as _ Hst. congruence.
Qed.

Lemma cstr_length (l : list byte) : (List.length (cstr l) <= List.length l)%nat.
Proof.
  induction l as [| b l IH]; cbn; [lia | ].
  destruct (Byte.eqb b x00); cbn; lia.
Qed.

(** X5.  [pas_zip_list] with a callback calls it once for every
    central-directory entry, in directory order, with the entry's kept name
    and its uncompressed size, and never more often than the handle's
    entry count.  It returns 0 or -1, and 0 whenever all counted entries
    are there; after a -1 the calls made for the entries before the
    rejected record stand.  The handle and the current-file record are not
    changed. *)
Theorem list_delivers_directory (st : state) :
  handle_ok (pas_zip__handle st) ->
  snd (fst (pas_zip_list st ZIP_HANDLE true))
  = map (list_call (data (pas_zip__handle st)))
        (handle_records (pas_zip__handle st)) /\
  (List.length (snd (fst (pas_zip_list st ZIP_HANDLE true)))
   <= Z.to_nat (num_entries (pas_zip__handle st)))%nat /\
  (fst (fst (pas_zip_list st ZIP_HANDLE true)) = 0 \/
   fst (fst (pas_zip_list st ZIP_HANDLE true)) = -1) /\
  (List.length (handle_records (pas_zip__handle st))
   = Z.to_nat (num_entries (pas_zip__handle st)) ->
   fst (fst (pas_zip_list st ZIP_HANDLE true)) = 0) /\
  pas_zip__handle (snd (pas_zip_list st ZIP_HANDLE true))
  = pas_zip__handle st /\
  pas_zip__current_file (snd (pas_zip_list st ZIP_HANDLE true))
  = pas_zip__current_file st.
Proof.
  intros [Hsz Hcd].
  destruct (cd_iterate_loop_list (data (pas_zip__handle st))
              (size (pas_zip__handle st)) ltac:(lia)
              (Z.to_nat (num_entries (pas_zip__handle st)))
              (cd_offset (pas_zip__handle st)) (pas_zip__name_buf st) [] Hcd)
    as [Hcalls Hret].
  cbn [pas_zip_list negb fst snd]. unfold cd_iterate, handle_records.
  cbn [fst snd pas_zip__handle pas_zip__current_file].
  split; [exact Hcalls | ]. split.
  - rewrite Hcalls. cbn [app]. rewrite length_map. apply cd_records_length.
  - split; [destruct (it_ret _); [left | right]; reflexivity | ].
    split; [ | split; reflexivity].
    intros Hlen. rewrite (Hret Hlen). reflexivity.
Qed.

Lemma list_delivers_directory_witness :
  snd (fst (pas_zip_list Samples.st_broken_second ZIP_HANDLE true))
  = map (list_call Samples.archive_broken_second) [33] /\
  fst (fst (pas_zip_list Samples.st_broken_second ZIP_HANDLE true)) = -1 /\
  fst (fst (pas_zip_list Fixture.st_ab ZIP_HANDLE true)) = 0.
Proof.
  split; [ | split].
  - apply (proj1 (list_delivers_directory Samples.st_broken_second
                    ltac:(by_evaluation))).
  - vm_compute. reflexivity.
  - apply (proj1 (proj2 (proj2 (proj2
             (list_delivers_directory Fixture.st_ab ltac:(by_evaluation)))))).
    vm_compute. reflexivity.
Defined.

(** X6.  [pas_zip_find] returns the first central-directory entry, in
    directory order, whose kept name equals the query: the record it
    leaves in [pas_zip__current_file] is the one parsed from that entry,
    and the accessors then give the query as name, the entry's
    uncompressed size, and "compressed" exactly when its method is not
    Store.  When no entry matches it returns NULL and leaves that record
    alone.  The handle is not changed. *)
Theorem find_returns_first_match (st : state) (q : list byte) :
  handle_ok (pas_zip__handle st) ->
  (forall p0,
      List.find (name_matches (data (pas_zip__handle st)) q)
                (handle_records (pas_zip__handle st)) = Some p0 ->
      fst (pas_zip_find st ZIP_HANDLE q) = FILE_CURRENT /\
      pas_zip__current_file (snd (pas_zip_find st ZIP_HANDLE q))
      = cd_entry (data (pas_zip__handle st)) p0 /\
      pas_zip_name (snd (pas_zip_find st ZIP_HANDLE q)) FILE_CURRENT
      = Some (cstr q) /\
      pas_zip_size (snd (pas_zip_find st ZIP_HANDLE q)) FILE_CURRENT
      = read_u32_le (data (pas_zip__handle st)) (p0 + 24) /\
      pas_zip_is_compressed (snd (pas_zip_find st ZIP_HANDLE q)) FILE_CURRENT
      = negb (read_u16_le (data (pas_zip__handle st)) (p0 + 10) =? 0)) /\
  (List.find (name_matches (data (pas_zip__handle st)) q)
             (handle_records (pas_zip__handle st)) = None ->
   fst (pas_zip_find st ZIP_HANDLE q) = FILE_NULL /\
   pas_zip__current_file (snd (pas_zip_find st ZIP_HANDLE q))
   = pas_zip__current_file st) /\
  pas_zip__handle (snd (pas_zip_find st ZIP_HANDLE q)) = pas_zip__handle st.
Proof.
  intros [Hsz Hcd].
  pose proof (cd_iterate_loop_find (data (pas_zip__handle st))
                (size (pas_zip__handle st)) ltac:(lia) q
                (Z.to_nat (num_entries (pas_zip__handle st)))
                (cd_offset (pas_zip__handle st)) (pas_zip__name_buf st) [] Hcd)
    as Hwalk.
  fold (handle_records (pas_zip__handle st)) in Hwalk.
  cbn [pas_zip_find]. unfold cd_iterate.
  set (r := cd_iterate_loop _ _ _ _ _ _ _ _) in *.
  split; [ | split].
  - intros p0 Hfind. rewrite Hfind in Hwalk.
    destruct Hwalk as (Hret & Hout & Hnb).
    rewrite Hret, Hout. cbn.
    apply find_some in Hfind. destruct Hfind as [_ Hm].
    apply bytes_eqb_eq in Hm.
    repeat split. rewrite Hnb, Hm. reflexivity.
  - intros Hfind. rewrite Hfind in Hwalk. rewrite Hwalk. split; reflexivity.
  - destruct (it_ret r); reflexivity.
Qed.

Lemma find_returns_first_match_witness :
  handle_records (pas_zip__handle Samples.st_twice) = [33; 80] /\
  name_matches Samples.archive_twice Fixture.name_a 80 = true /\
  pas_zip__current_file
    (snd (pas_zip_find Samples.st_twice ZIP_HANDLE Fixture.name_a))
  = cd_entry Samples.archive_twice 33.
Proof.
  split; [by_evaluation | ]. split; [by_evaluation | ].
  apply (proj1 (find_returns_first_match Samples.st_twice Fixture.name_a
                  ltac:(by_evaluation))).
  vm_compute. reflexivity.
Defined.

(** X7.  No query of more than 511 bytes is ever found, whatever the
    archive holds: the name kept from a record has at most 511 bytes. *)
Theorem find_rejects_long_query (st : state) (q : list byte) :
  handle_ok (pas_zip__handle st) ->
  511 < strlen q ->
  fst (pas_zip_find st ZIP_HANDLE q) = FILE_NULL.
Proof.
  intros Hok Hlong.
  destruct (pas_zip_find st ZIP_HANDLE q) as [[ | ] st'] eqn:Hfind;
    [reflexivity | ].
  destruct (find_hit_record st st' q Hok Hfind) as (p & _ & _ & _ & _ & Hq).
  exfalso. unfold strlen, len in Hlong. rewrite <- Hq in Hlong.
  unfold kept_name in Hlong.
  pose proof (cstr_length
                (firstn 511 (cd_stored_name (data (pas_zip__handle st)) p)))
    as H1.
  rewrite length_firstn in H1. lia.
Qed.

Lemma find_rejects_long_query_witness :
  fst (pas_zip_find Fixture.st_long ZIP_HANDLE Samples.long_query) = FILE_NULL.
Proof.
  apply (find_rejects_long_query Fixture.st_long Samples.long_query).
  - by_evaluation.
  - vm_compute. reflexivity.
Defined.

(** X8.  The module state stays consistent: it is consistent initially,
    and from a consistent state every [pas_zip_open], [pas_zip_find] and
    [pas_zip_list], successful or not, leaves the handle describing its
    buffer and the name buffer at its 512 bytes (the copy of a name and
    its terminator never reach past the buffer). *)
Theorem state_ok_preserved (st : state) :
  state_ok initial_state /\
  (state_ok st ->
   (forall d, state_ok (snd (pas_zip_open st d))) /\
   (forall zip q, state_ok (snd (pas_zip_find st zip q))) /\
   (forall zip cb, state_ok (snd (pas_zip_list st zip cb)))).
Proof.
  split; [by_evaluation | ].
  intros [Hh Hnb]. pose proof Hh as [Hsz Hcd].
  split; [ | split].
  - intros d. destruct (pas_zip_open st d) as [[z s] st'] eqn:Hopen.
    destruct z.
    + apply open_failure_keeps_state_aux in Hopen. cbn. subst st'.
      split; assumption.
    + pose proof (open_handle_ok st st' d s Hopen) as [Hok _].
      split; [exact Hok | ].
      unfold pas_zip_open in Hopen.
      destruct (len d <? 22); [discriminate | ].
      destruct (find_eocd d (len d)) as [[cdo num] | ]; [ | discriminate].
      injection Hopen as _ Hst. subst st'. exact Hnb.
  - intros zip q. destruct zip; [split; assumption | ].
    cbn [pas_zip_find]. unfold cd_iterate.
    destruct (it_ret _); (split; [exact Hh | ]); cbn [snd pas_zip__name_buf];
      apply cd_iterate_loop_name_buf_length; (lia || assumption).
  - intros zip cb. destruct zip; [split; assumption | ].
    cbn [pas_zip_list]. destruct cb; cbn [negb snd]; [ | split; assumption].
    split; [exact Hh | ]. cbn [pas_zip__name_buf]. unfold cd_iterate.
    apply cd_iterate_loop_name_buf_length; (lia || assumption).
Qed.

Lemma state_ok_preserved_witness :
  state_ok (snd (pas_zip_find Fixture.st_long ZIP_HANDLE Fixture.short_query)).
Proof.
  apply (proj2 (state_ok_preserved Fixture.st_long)).
  by_evaluation.
Defined.

(** ** More on extraction *)



(** What a successful Store extraction computes. *)
Lemma extract_store_result (st : state) (buffer : list byte) :
  size (pas_zip__handle st) < 18446744073709551616 ->
  compression_method (pas_zip__current_file st) = PAS_ZIP_METHOD_STORE ->
  0 <= compressed_size (pas_zip__current_file st) ->
  uncompressed_size (pas_zip__current_file st) <= len buffer ->
  local_header_ok (data (pas_zip__handle st)) (size (pas_zip__handle st))
                  (local_header_offset (pas_zip__current_file st))
                  (compressed_size (pas_zip__current_file st)) ->
  pas_zip_extract st FILE_CURRENT buffer
  = (uncompressed_size (pas_zip__current_file st), PAS_ZIP_OK,
     memcpy buffer
       (skipn (Z.to_nat
                 (30 + read_u16_le (data (pas_zip__handle st))
                         (local_header_offset (pas_zip__current_file st) + 26)
                  + read_u16_le (data (pas_zip__handle st))
                      (local_header_offset (pas_zip__current_file st) + 28)))
              (data (pas_zip__handle st)))
       (compressed_size (pas_zip__current_file st))).
Proof.
  intros Hfit Hm Hc Hcap (Hoff & H30 & Hsig & Hpay).
  set (f := pas_zip__current_file st) in *.
  set (d := data (pas_zip__handle st)) in *.
  set (sz := size (pas_zip__handle st)) in *.
  pose proof (read_u16_le_range d (local_header_offset f + 26)) as Hfn.
  pose proof (read_u16_le_range d (local_header_offset f + 28)) as Hex.
  cbn [pas_zip_extract]. unfold extract_from. fold f d sz.
  unfold skip_local_header.
  assert (Hw : u32 (local_header_offset f + 30) <= local_header_offset f + 30).
  { unfold u32. apply Z.mod_le; lia. }
  destruct (Z.gtb_spec (u32 (local_header_offset f + 30)) sz); [lia | ].
  rewrite Hsig, Z.eqb_refl. cbn [negb].
  set (po := 30 + _ + _) in *.
  destruct (Z.eqb_spec po 0); [lia | ].
  rewrite usize_small by lia.
  destruct (Z.gtb_spec (po + compressed_size f) sz); [lia | ].
  destruct (Z.ltb_spec (len buffer) (uncompressed_size f)); [lia | ].
  rewrite Hm, Z.eqb_refl. reflexivity.
Qed.

(** X10.  A successful Store extraction whose compressed size does not
    exceed the destination writes only the first [compressed_size] bytes of
    the destination: its length is unchanged and the bytes from
    [compressed_size] on are untouched. *)
Theorem extract_writes_prefix_only (st : state) (buffer : list byte) :
  handle_ok (pas_zip__handle st) ->
  size (pas_zip__handle st) < 18446744073709551616 ->
  compression_method (pas_zip__current_file st) = PAS_ZIP_METHOD_STORE ->
  0 <= compressed_size (pas_zip__current_file st) <= len buffer ->
  uncompressed_size (pas_zip__current_file st) <= len buffer ->
  local_header_ok (data (pas_zip__handle st)) (size (pas_zip__handle st))
                  (local_header_offset (pas_zip__current_file st))
                  (compressed_size (pas_zip__current_file st)) ->
  snd (fst (pas_zip_extract st FILE_CURRENT buffer)) = PAS_ZIP_OK /\
  len (snd (pas_zip_extract st FILE_CURRENT buffer)) = len buffer /\
  skipn (Z.to_nat (compressed_size (pas_zip__current_file st)))
        (snd (pas_zip_extract st FILE_CURRENT buffer))
  = skipn (Z.to_nat (compressed_size (pas_zip__current_file st))) buffer.
Proof.
  intros [Hsz _] Hfit Hm Hc Hcap Hlh.
  rewrite (extract_store_result st buffer Hfit Hm ltac:(lia) Hcap Hlh).
  destruct Hlh as (Hoff & H30 & Hsig & Hpay).
  cbn [fst snd]. split; [reflexivity | ].
  pose proof (read_u16_le_range (data (pas_zip__handle st))
                (local_header_offset (pas_zip__current_file st) + 26)) as Hfn.
  pose proof (read_u16_le_range (data (pas_zip__handle st))
                (local_header_offset (pas_zip__current_file st) + 28)) as Hex.
  set (po := 30 + _ + _) in *.
  set (n := compressed_size (pas_zip__current_file st)) in *.
  set (src := skipn (Z.to_nat po) (data (pas_zip__handle st))).
  assert (Hsrc : List.length (firstn (Z.to_nat n) src) = Z.to_nat n).
  { apply firstn_length_le. unfold src. rewrite length_skipn.
    unfold len in *. lia. }
  unfold memcpy. split.
  - unfold len in *. rewrite length_app, Hsrc, length_skipn. lia.
  - rewrite skipn_app, Hsrc, Nat.sub_diag. cbn [skipn].
    rewrite skipn_all2 by lia. reflexivity.
Qed.

Lemma extract_writes_prefix_only_witness :
  skipn (Z.to_nat (compressed_size (pas_zip__current_file Fixture.st_ab_b)))
        (snd (pas_zip_extract Fixture.st_ab_b FILE_CURRENT (zeros 5)))
  = skipn (Z.to_nat (compressed_size (pas_zip__current_file Fixture.st_ab_b)))
          (zeros 5).
Proof.
  apply (extract_writes_prefix_only Fixture.st_ab_b (zeros 5)).
  - by_evaluation.
  - vm_compute. reflexivity.
  - vm_compute. reflexivity.
  - vm_compute. split; discriminate.
  - vm_compute. discriminate.
  - unfold local_header_ok. by_evaluation.
Defined.

(** X11.  For a Store entry whose local header is the one at offset 0 of
    the archive, a successful extraction puts into the destination the
    [compressed_size] bytes that follow that header, its name and its
    extra field. *)
Theorem extract_first_entry_payload (st : state) (buffer : list byte) :
  handle_ok (pas_zip__handle st) ->
  size (pas_zip__handle st) < 18446744073709551616 ->
  local_header_offset (pas_zip__current_file st) = 0 ->
  compression_method (pas_zip__current_file st) = PAS_ZIP_METHOD_STORE ->
  0 <= compressed_size (pas_zip__current_file st) ->
  uncompressed_size (pas_zip__current_file st) <= len buffer ->
  local_header_ok (data (pas_zip__handle st)) (size (pas_zip__handle st)) 0
                  (compressed_size (pas_zip__current_file st)) ->
  fst (pas_zip_extract st FILE_CURRENT buffer)
  = (uncompressed_size (pas_zip__current_file st), PAS_ZIP_OK) /\
  firstn (Z.to_nat (compressed_size (pas_zip__current_file st)))
         (snd (pas_zip_extract st FILE_CURRENT buffer))
  = slice (data (pas_zip__handle st))
          (0 + 30 + read_u16_le (data (pas_zip__handle st)) 26
           + read_u16_le (data (pas_zip__handle st)) 28)
          (compressed_size (pas_zip__current_file st)).
Proof.
  intros [Hsz _] Hfit Hoff0 Hm Hc Hcap Hlh.
  assert (Hlh' : local_header_ok (data (pas_zip__handle st))
                   (size (pas_zip__handle st))
                   (local_header_offset (pas_zip__current_file st))
                   (compressed_size (pas_zip__current_file st)))
    by (rewrite Hoff0; exact Hlh).
  rewrite (extract_store_result st buffer Hfit Hm Hc Hcap Hlh').
  rewrite Hoff0. cbn [fst snd].
  destruct Hlh as (_ & _ & _ & Hpay).
  rewrite !Z.add_0_l in *.
  split; [reflexivity | ].
  pose proof (read_u16_le_range (data (pas_zip__handle st)) 26) as Hfn.
  pose proof (read_u16_le_range (data (pas_zip__handle st)) 28) as Hex.
  set (po := 30 + _ + _) in *.
  set (n := compressed_size (pas_zip__current_file st)) in *.
  unfold memcpy, slice.
  set (src := skipn (Z.to_nat po) (data (pas_zip__handle st))).
  assert (Hsrc : List.length (firstn (Z.to_nat n) src) = Z.to_nat n).
  { apply firstn_length_le. unfold src. rewrite length_skipn.
    unfold len in *. lia. }
  rewrite firstn_app, Hsrc, Nat.sub_diag, firstn_O, app_nil_r.
  rewrite firstn_firstn, Nat.min_id. reflexivity.
Qed.

Lemma extract_first_entry_payload_witness :
  firstn (Z.to_nat (compressed_size (pas_zip__current_file Fixture.st_ab_a)))
         (snd (pas_zip_extract Fixture.st_ab_a FILE_CURRENT (zeros 2)))
  = slice (data (pas_zip__handle Fixture.st_ab_a))
          (0 + 30 + read_u16_le (data (pas_zip__handle Fixture.st_ab_a)) 26
           + read_u16_le (data (pas_zip__handle Fixture.st_ab_a)) 28)
          (compressed_size (pas_zip__current_file Fixture.st_ab_a)).
Proof.
  apply (extract_first_entry_payload Fixture.st_ab_a (zeros 2)).
  - by_evaluation.
  - vm_compute. reflexivity.
  - vm_compute. reflexivity.
  - vm_compute. reflexivity.
  - vm_compute. discriminate.
  - vm_compute. discriminate.
  - unfold local_header_ok. by_evaluation.
Defined.

(** ** More on the writer *)

Lemma len_app (a b : list byte) : len (a ++ b) = len a + len b.
Proof. unfold len. rewrite length_app. lia. Qed.

Lemma strlen_nonneg (l : list byte) : 0 <= strlen l.
Proof. unfold strlen, len. lia. Qed.

Lemma u32_range (z : Z) : 0 <= u32 z < 4294967296.
Proof. unfold u32. apply Z.mod_pos_bound. lia. Qed.

Lemma u32_le (z : Z) : 0 <= z -> u32 z <= z.
Proof. intros H. unfold u32. apply Z.mod_le; lia. Qed.

Lemma usize_le (z : Z) : 0 <= z -> usize z <= z.
Proof. intros H. unfold usize. apply Z.mod_le; lia. Qed.

Lemma u16_small (z : Z) : 0 <= z < 65536 -> u16 z = z.
Proof. intros H. unfold u16. apply Z.mod_small. exact H. Qed.

Lemma local_record_size_pos (f : zfile) : 34 <= local_record_size f.
Proof.
  unfold local_record_size.
  pose proof (strlen_nonneg (fst f)). pose proof (u32_range (len (snd f))).
  lia.
Qed.

Lemma central_record_size_pos (f : zfile) : 40 <= central_record_size f.
Proof.
  unfold central_record_size. pose proof (strlen_nonneg (fst f)). lia.
Qed.

Lemma locals_size_cons (f : zfile) (files : list zfile) :
  locals_size (f :: files) = local_record_size f + locals_size files.
Proof. reflexivity. Qed.

Lemma centrals_size_cons (f : zfile) (files : list zfile) :
  centrals_size (f :: files) = central_record_size f + centrals_size files.
Proof. reflexivity. Qed.

Lemma locals_size_nonneg (files : list zfile) : 0 <= locals_size files.
Proof.
  induction files as [| f files IH]; [cbn; lia | ].
  rewrite locals_size_cons. pose proof (local_record_size_pos f). lia.
Qed.

Lemma centrals_size_nonneg (files : list zfile) : 0 <= centrals_size files.
Proof.
  induction files as [| f files IH]; [cbn; lia | ].
  rewrite centrals_size_cons. pose proof (central_record_size_pos f). lia.
Qed.

Lemma name_bytes_length (fname : list byte) :
  len (firstn (Z.to_nat (strlen fname)) (cstr fname)) = strlen fname.
Proof.
  unfold strlen, len. rewrite Nat2Z.id, firstn_all. reflexivity.
Qed.

Lemma payload_bytes_length (dat : list byte) :
  len (firstn (Z.to_nat (u32 (len dat))) dat) = u32 (len dat).
Proof.
  pose proof (u32_range (len dat)) as Hr.
  assert (Hl : 0 <= len dat) by (unfold len; lia).
  pose proof (u32_le (len dat) Hl) as Hle.
  unfold len in *. rewrite length_firstn. lia.
Qed.

(** The first loop, when it runs to its end, has accepted every name and
    stored exactly the local records. *)
Lemma create_locals_done (files : list zfile) (bs : Z) :
  forall out out',
    create_locals files bs out = inr out' ->
    names_fit files /\ len out' = len out + locals_size files.
Proof.
  induction files as [| [fname dat] files IH]; intros out out' H;
    cbn [create_locals] in H.
  - injection H as <-. split; [constructor | cbn; lia].
  - destruct (Z.eqb_spec (u16 (strlen fname)) (strlen fname)) as [Hfn | Hfn];
      cbn [negb] in H; [ | discriminate].
    destruct (usize _ >? bs); [discriminate | ].
    apply IH in H. destruct H as [Hfit Hlen].
    assert (Hshort : strlen fname < 65536).
    { rewrite <- Hfn. unfold u16. apply Z.mod_pos_bound. lia. }
    split; [constructor; [exact Hshort | exact Hfit] | ].
    rewrite Hlen, Hfn.
    rewrite !len_app, name_bytes_length, payload_bytes_length,
      local_header_bytes_length.
    rewrite locals_size_cons. unfold local_record_size. cbn [fst snd]. lia.
Qed.

Lemma create_central_done (files : list zfile) (bs : Z) (todo : list zfile) :
  forall i cd_size out cd_size' out',
    names_fit todo ->
    create_central files todo i bs cd_size out = inr (cd_size', out') ->
    len out' = len out + centrals_size todo.
Proof.
  induction todo as [| [fname dat] todo IH];
    intros i cd_size out cd_size' out' Hfit H; cbn [create_central] in H.
  - injection H as _ <-. cbn. lia.
  - inversion Hfit as [| f l Hshort Hrest]; subst. cbn [fst] in Hshort.
    destruct (usize _ >? bs); [discriminate | ].
    apply IH in H; [ | exact Hrest].
    rewrite H. rewrite (u16_small (strlen fname))
      by (pose proof (strlen_nonneg fname); lia).
    rewrite !len_app, name_bytes_length, central_header_bytes_length.
    rewrite centrals_size_cons. unfold central_record_size. cbn [fst]. lia.
Qed.

(** With enough room the first loop passes every check. *)
Lemma create_locals_fits (files : list zfile) (bs : Z) :
  forall out,
    names_fit files -> len out + locals_size files <= bs ->
    exists out', create_locals files bs out = inr out'.
Proof.
  induction files as [| [fname dat] files IH]; intros out Hfit Hroom;
    cbn [create_locals].
  - eexists. reflexivity.
  - inversion Hfit as [| f l Hshort Hrest]; subst. cbn [fst] in Hshort.
    pose proof (strlen_nonneg fname) as Hn0.
    rewrite (u16_small (strlen fname)) by lia.
    rewrite Z.eqb_refl. cbn [negb].
    pose proof (u32_range (len dat)) as Hsz.
    pose proof (locals_size_nonneg files) as Hrest0.
    rewrite locals_size_cons in Hroom.
    unfold local_record_size in Hroom. cbn [fst snd] in Hroom.
    assert (Hneed : u32 (30 + strlen fname + u32 (len dat))
                    <= 30 + strlen fname + u32 (len dat))
      by (apply u32_le; lia).
    pose proof (u32_range (30 + strlen fname + u32 (len dat))) as Hneed0.
    assert (Hlen0 : 0 <= len out) by (unfold len; lia).
    unfold local_record_size in Hroom. cbn [fst snd] in Hroom.
    assert (Hchk : usize (len out + u32 (30 + strlen fname + u32 (len dat)))
                   <= len out + u32 (30 + strlen fname + u32 (len dat)))
      by (apply usize_le; lia).
    destruct (Z.gtb_spec
                (usize (len out + u32 (30 + strlen fname + u32 (len dat))))
                bs); [lia | ].
    apply IH; [exact Hrest | ].
    rewrite !len_app, name_bytes_length, payload_bytes_length,
      local_header_bytes_length. lia.
Qed.

Lemma create_central_fits (files : list zfile) (bs : Z) (todo : list zfile) :
  forall i cd_size out,
    names_fit todo -> len out + centrals_size todo + 6 <= bs ->
    exists r, create_central files todo i bs cd_size out = inr r.
Proof.
  induction todo as [| [fname dat] todo IH]; intros i cd_size out Hfit Hroom;
    cbn [create_central].
  - eexists. reflexivity.
  - inversion Hfit as [| f l Hshort Hrest]; subst. cbn [fst] in Hshort.
    pose proof (strlen_nonneg fname) as Hn0.
    rewrite (u16_small (strlen fname)) by lia.
    pose proof (centrals_size_nonneg todo) as Hrest0.
    rewrite centrals_size_cons in Hroom.
    unfold central_record_size in Hroom. cbn [fst] in Hroom.
    assert (Hlen0 : 0 <= len out) by (unfold len; lia).
    assert (H1 : usize (len out + 46) <= len out + 46)
      by (apply usize_le; lia).
    assert (H1' : 0 <= usize (len out + 46))
      by (unfold usize; apply Z.mod_pos_bound; lia).
    assert (H2 : usize (usize (len out + 46) + strlen fname)
                 <= usize (len out + 46) + strlen fname)
      by (apply usize_le; lia).
    destruct (Z.gtb_spec (usize (usize (len out + 46) + strlen fname)) bs);
      [lia | ].
    apply IH; [exact Hrest | ].
    rewrite !len_app, name_bytes_length, central_header_bytes_length. lia.
Qed.

Lemma create_locals_error (bs : Z) (files : list zfile) :
  forall out s out',
    create_locals files bs out = inl (s, out') -> s <> PAS_ZIP_OK.
Proof.
  induction files as [| [fname dat] files IH]; intros out s out' H;
    cbn [create_locals] in H; [discriminate | ].
  destruct (negb _); [injection H as <- _; discriminate | ].
  destruct (usize _ >? bs); [injection H as <- _; discriminate | ].
  exact (IH _ _ _ H).
Qed.

Lemma create_central_error (bs : Z) (files todo : list zfile) :
  forall i cd_size out s out',
    create_central files todo i bs cd_size out = inl (s, out') ->
    s <> PAS_ZIP_OK.
Proof.
  induction todo as [| [fname dat] todo IH]; intros i cd_size out s out' H;
    cbn [create_central] in H; [discriminate | ].
  destruct (usize _ >? bs); [injection H as <- _; discriminate | ].
  exact (IH _ _ _ _ _ H).
Qed.

(** The shape of a successful call. *)
Lemma create_ok_shape (files : list zfile) (bs : Z) :
  cr_status (pas_zip_create files bs) = PAS_ZIP_OK ->
  files <> [] /\
  exists out1 cd_size out2,
    create_locals files bs [] = inr out1 /\
    create_central files files 0 bs 0 out1 = inr (cd_size, out2) /\
    usize (len out2 + 22) <= bs /\
    cr_stored (pas_zip_create files bs)
    = out2 ++ trailer_bytes (Z.of_nat (List.length files)) cd_size
                            (u32 (len out1)) /\
    cr_ret (pas_zip_create files bs) = len (cr_stored (pas_zip_create files bs)).
Proof.
  unfold pas_zip_create.
  destruct (Z.leb_spec (Z.of_nat (List.length files)) 0) as [Hn | Hn];
    [discriminate | ].
  destruct (create_locals files bs []) as [[s out] | out1] eqn:Hloc.
  { cbn. intros Hs. exfalso.
    exact (create_locals_error bs files [] s out Hloc Hs). }
  destruct (create_central files files 0 bs 0 out1)
    as [[s out] | [cd_size out2]] eqn:Hcen.
  { cbn. intros Hs. exfalso.
    exact (create_central_error bs files files 0%nat 0 out1 s out Hcen Hs). }
  destruct (Z.gtb_spec (usize (len out2 + 22)) bs) as [Hg | Hg];
    [discriminate | ].
  cbn. intros _. split.
  - intros ->. cbn in Hn. lia.
  - exists out1, cd_size, out2.
    split; [reflexivity | ]. split; [exact Hcen | ]. split; [exact Hg | ].
    split; reflexivity.
Qed.

(** X13.  When [pas_zip_create] succeeds, the input is not empty, every
    filename is shorter than 65536 bytes, and the return value is the
    number of bytes stored: 34 bytes plus name and payload for each file,
    40 bytes plus name for each file again, and 22 bytes of trailer; this
    total does not exceed the capacity. *)
Theorem create_success_size (files : list zfile) (bs : Z) :
  cr_status (pas_zip_create files bs) = PAS_ZIP_OK ->
  files <> [] /\
  names_fit files /\
  cr_ret (pas_zip_create files bs) = create_total files /\
  len (cr_stored (pas_zip_create files bs)) = create_total files /\
  (create_total files < 18446744073709551616 -> create_total files <= bs).
Proof.
  intros Hok.
  destruct (create_ok_shape files bs Hok)
    as (Hne & out1 & cd_size & out2 & Hloc & Hcen & Hchk & Hst & Hret).
  destruct (create_locals_done files bs [] out1 Hloc) as [Hfit Hl1].
  pose proof (create_central_done files bs files 0%nat 0 out1 cd_size out2
                Hfit Hcen) as Hl2.
  assert (Htot : len (cr_stored (pas_zip_create files bs))
                 = create_total files).
  { rewrite Hst, len_app, trailer_bytes_length, Hl2, Hl1.
    unfold create_total. cbn. lia. }
  split; [exact Hne | ]. split; [exact Hfit | ].
  split; [rewrite Hret; exact Htot | ]. split; [exact Htot | ].
  intros Hsmall.
  assert (Hlen : len out2 + 22 = create_total files).
  { rewrite <- Htot, Hst, len_app, trailer_bytes_length. reflexivity. }
  rewrite usize_small in Hchk; [lia | ].
  unfold len in *. lia.
Qed.

Lemma create_success_size_witness :
  cr_ret (pas_zip_create Fixture.scenario 256)
  = create_total Fixture.scenario /\
  create_total Fixture.scenario = 196.
Proof.
  split; [ | vm_compute; reflexivity].
  apply (create_success_size Fixture.scenario 256).
  vm_compute. reflexivity.
Defined.

(** X14.  [pas_zip_create] succeeds, and returns that total, for every
    non-empty input whose filenames are shorter than 65536 bytes as soon
    as the capacity is at least the total. *)
Theorem create_succeeds_when_fits (files : list zfile) (bs : Z) :
  files <> [] ->
  names_fit files ->
  create_total files <= bs ->
  cr_status (pas_zip_create files bs) = PAS_ZIP_OK /\
  cr_ret (pas_zip_create files bs) = create_total files.
Proof.
  intros Hne Hfit Hroom.
  pose proof (locals_size_nonneg files) as Hl0.
  pose proof (centrals_size_nonneg files) as Hc0.
  unfold create_total in Hroom.
  destruct (create_locals_fits files bs [] Hfit ltac:(cbn; lia))
    as [out1 Hloc].
  destruct (create_locals_done files bs [] out1 Hloc) as [_ Hl1].
  cbn in Hl1.
  destruct (create_central_fits files bs files 0%nat 0 out1 Hfit ltac:(lia))
    as [[cd_size out2] Hcen].
  pose proof (create_central_done files bs files 0%nat 0 out1 cd_size out2
                Hfit Hcen) as Hl2.
  unfold pas_zip_create.
  destruct (Z.leb_spec (Z.of_nat (List.length files)) 0) as [Hn | Hn].
  { destruct files; [contradiction | cbn in Hn; lia]. }
  rewrite Hloc, Hcen.
  assert (Hchk : usize (len out2 + 22) <= len out2 + 22)
    by (apply usize_le; unfold len; lia).
  destruct (Z.gtb_spec (usize (len out2 + 22)) bs) as [Hg | Hg]; [lia | ].
  cbn [cr_status cr_ret]. split; [reflexivity | ].
  rewrite len_app, trailer_bytes_length. unfold create_total. lia.
Qed.

Lemma create_succeeds_when_fits_witness :
  cr_status (pas_zip_create Fixture.scenario 196) = PAS_ZIP_OK /\
  cr_ret (pas_zip_create Fixture.scenario 196)
  = create_total Fixture.scenario.
Proof.
  apply (create_succeeds_when_fits Fixture.scenario 196).
  - discriminate.
  - repeat constructor; vm_compute; reflexivity.
  - vm_compute. discriminate.
Defined.

(** X15.  [pas_zip_create] never succeeds when some filename has 65536
    bytes or more: the call returns 0 with a status other than OK. *)
Theorem create_rejects_long_name (files : list zfile) (bs : Z) :
  Exists (fun f : zfile => 65536 <= strlen (fst f)) files ->
  cr_ret (pas_zip_create files bs) = 0 /\
  cr_status (pas_zip_create files bs) <> PAS_ZIP_OK.
Proof.
  intros Hlong.
  assert (Hloc : forall out, exists s out',
             create_locals files bs out = inl (s, out') /\ s <> PAS_ZIP_OK).
  { induction Hlong as [[fname dat] files Hhd | [fname dat] files Htl IH];
      intros out; cbn [create_locals].
    - cbn [fst] in Hhd.
      destruct (Z.eqb_spec (u16 (strlen fname)) (strlen fname)) as [E | E].
      + exfalso. assert (u16 (strlen fname) < 65536)
          by (unfold u16; apply Z.mod_pos_bound; lia). lia.
      + cbn [negb]. eexists. eexists. split; [reflexivity | discriminate].
    - destruct (negb _);
        [eexists; eexists; split; [reflexivity | discriminate] | ].
      destruct (usize _ >? bs);
        [eexists; eexists; split; [reflexivity | discriminate] | ].
      apply IH. }
  destruct (Hloc []) as (s & out' & Hl & Hs).
  unfold pas_zip_create.
  destruct (Z.of_nat (List.length files) <=? 0);
    [split; [reflexivity | discriminate] | ].
  rewrite Hl. split; [reflexivity | exact Hs].
Qed.

Lemma create_rejects_long_name_witness :
  cr_ret (pas_zip_create [(Samples.huge_name, [])] 100000) = 0 /\
  cr_status (pas_zip_create [(Samples.huge_name, [])] 100000) <> PAS_ZIP_OK.
Proof.
  apply (create_rejects_long_name [(Samples.huge_name, [])] 100000).
  apply Exists_cons_hd. vm_compute. discriminate.
Defined.

(** X16.  The archive written by a successful [pas_zip_create] is accepted
    by [pas_zip_open]: the handle gets the whole archive, the position
    where the second loop started as directory offset, and the number of
    files reduced to 16 bits as entry count. *)
Theorem create_then_open (st : state) (files : list zfile) (bs : Z) :
  cr_status (pas_zip_create files bs) = PAS_ZIP_OK ->
  create_total files < 18446744073709551616 ->
  pas_zip_open st (cr_stored (pas_zip_create files bs))
  = (ZIP_HANDLE, PAS_ZIP_OK,
     mk_state
       (mk_pas_zip (cr_stored (pas_zip_create files bs))
                   (create_total files)
                   (u32 (locals_size files))
                   (u16 (Z.of_nat (List.length files))))
       (pas_zip__current_file st) (pas_zip__name_buf st)).
Proof.
  intros Hok Hsmall.
  destruct (create_ok_shape files bs Hok)
    as (Hne & out1 & cd_size & out2 & Hloc & Hcen & Hchk & Hst & Hret).
  destruct (create_locals_done files bs [] out1 Hloc) as [Hfit Hl1].
  pose proof (create_central_done files bs files 0%nat 0 out1 cd_size out2
                Hfit Hcen) as Hl2.
  cbn in Hl1.
  set (a := cr_stored (pas_zip_create files bs)) in *.
  assert (Hlen : len a = create_total files).
  { rewrite Hst, len_app, trailer_bytes_length, Hl2, Hl1.
    unfold create_total. lia. }
  assert (Ht : len a - 22 = len out2).
  { rewrite Hst, len_app, trailer_bytes_length. lia. }
  pose proof (locals_size_nonneg files) as Hl0.
  pose proof (centrals_size_nonneg files) as Hc0.
  assert (Hsig : read_u32_le a (len out2) = PAS_ZIP_EOCD_SIG).
  { rewrite Hst. replace (len out2) with (len out2 + 0) by lia.
    rewrite read_u32_le_app_right by lia. reflexivity. }
  assert (Hnum : read_u16_le a (len out2 + 8)
                 = u16 (Z.of_nat (List.length files))).
  { rewrite Hst, read_u16_le_app_right by lia.
    unfold trailer_bytes.
    change ([x50; x4b; x05; x06] ++ zeros 4 ++ ?r)
      with (([x50; x4b; x05; x06] ++ zeros 4) ++ r).
    change 8 with (len ([x50; x4b; x05; x06] ++ zeros 4) + 0).
    rewrite read_u16_le_app_right by lia.
    rewrite read_u16_le_app_left by (cbn; lia).
    apply read_u16_le_le16. }
  assert (Hcdo : read_u32_le a (len out2 + 16) = u32 (locals_size files)).
  { rewrite Hst, read_u32_le_app_right by lia.
    unfold trailer_bytes.
    set (fc := Z.of_nat (List.length files)).
    change ([x50; x4b; x05; x06] ++ zeros 4 ++ le16 fc ++ le16 fc
            ++ le32 cd_size ++ ?r)
      with (([x50; x4b; x05; x06] ++ zeros 4 ++ le16 fc ++ le16 fc
             ++ le32 cd_size) ++ r).
    change 16 with (len ([x50; x4b; x05; x06] ++ zeros 4 ++ le16 fc
                         ++ le16 fc ++ le32 cd_size) + 0).
    rewrite read_u32_le_app_right by lia.
    rewrite read_u32_le_app_left by (cbn; lia).
    rewrite read_u32_le_le32, Hl1. unfold u32.
    apply Z.mod_mod. lia. }
  unfold pas_zip_open.
  destruct (Z.ltb_spec (len a) 22) as [Hs | Hs]; [lia | ].
  unfold find_eocd, find_eocd_run.
  destruct (Z.ltb_spec (len a) 22) as [Hs' | Hs']; [lia | ].
  rewrite (find_eocd_loop_first_match a (len a) ltac:(lia) 0%nat
             (find_eocd_fuel (len a)) _ (len a - 22) (len a - 22));
    [ | lia | destruct (len a >? 65557) eqn:E; lia | cbn; lia | lia
      | unfold find_eocd_fuel; lia | rewrite Ht; exact Hsig
      | intros j Hj; lia ].
  rewrite Ht, Hcdo, Hnum.
  pose proof (u32_le (locals_size files) Hl0) as Hle.
  destruct (Z.geb_spec (u32 (locals_size files)) (len a)) as [Hg | Hg];
    [lia | ].
  rewrite Hlen. reflexivity.
Qed.

Lemma create_then_open_witness :
  pas_zip_open initial_state (cr_stored (pas_zip_create Fixture.scenario 256))
  = (ZIP_HANDLE, PAS_ZIP_OK,
     mk_state
       (mk_pas_zip (cr_stored (pas_zip_create Fixture.scenario 256))
                   (create_total Fixture.scenario)
                   (u32 (locals_size Fixture.scenario))
                   (u16 (Z.of_nat (List.length Fixture.scenario))))
       (pas_zip__current_file initial_state)
       (pas_zip__name_buf initial_state)).
Proof.
  apply (create_then_open initial_state Fixture.scenario 256).
  - vm_compute. reflexivity.
  - vm_compute. reflexivity.
Defined.

Lemma create_failure_returns_zero_witness :
  cr_ret (pas_zip_create [(Fixture.name_a, [])] 31) = 0.
Proof.
  apply (create_failure_returns_zero [(Fixture.name_a, [])] 31).
  vm_compute. discriminate.
Defined.

(** ** Reading a one-file archive *)

Section SingleFile.

Variables nm payload : list byte.

Local Abbreviation a := (len nm).
Local Abbreviation n := (len payload).
Local Abbreviation L := (Fixture.lfh nm payload).
Local Abbreviation C := (Fixture.cdh 0 n n 0 nm).
Local Abbreviation E := (Fixture.eocd 1 (46 + a) (30 + a + n) []).
Local Abbreviation d := (single_file_archive nm payload).

Lemma sfa_split : d = L ++ C ++ E.
Proof. reflexivity. Qed.

Lemma sfa_len_L : len L = 30 + a + n.
Proof.
  unfold Fixture.lfh, len. rewrite !length_app. cbn [List.length zeros repeat le32 le16].
  lia.
Qed.

Lemma sfa_len_C : len C = 46 + a.
Proof.
  unfold Fixture.cdh, len. rewrite !length_app.
  cbn [List.length zeros repeat le32 le16]. lia.
Qed.

Lemma sfa_len_E : len E = 22.
Proof. reflexivity. Qed.

Lemma sfa_len : len d = 30 + a + n + (46 + a) + 22.
Proof.
  rewrite sfa_split, !len_app, sfa_len_L, sfa_len_C, sfa_len_E. lia.
Qed.

Lemma a_nonneg : 0 <= a.
Proof. unfold len. lia. Qed.

Lemma n_nonneg : 0 <= n.
Proof. unfold len. lia. Qed.

(** The local header. *)
Lemma sfa_local_sig : read_u32_le d 0 = PAS_ZIP_LFH_SIG.
Proof. reflexivity. Qed.

Lemma sfa_local_fn_len : read_u16_le d (0 + 26) = u16 a.
Proof.
  change (read_u16_le d (0 + 26)) with (read_u16_le (le16 a) 0).
  apply read_u16_le_le16.
Qed.

Lemma sfa_local_extra_len : read_u16_le d (0 + 28) = 0.
Proof. reflexivity. Qed.

(** The central-directory record, at [p = 30 + a + n]. *)
Lemma sfa_cd_u32 (k : Z) :
  0 <= k -> read_u32_le d (30 + a + n + k) = read_u32_le (C ++ E) k.
Proof.
  intros Hk. rewrite sfa_split, <- sfa_len_L.
  apply read_u32_le_app_right. exact Hk.
Qed.

Lemma sfa_cd_u16 (k : Z) :
  0 <= k -> read_u16_le d (30 + a + n + k) = read_u16_le (C ++ E) k.
Proof.
  intros Hk. rewrite sfa_split, <- sfa_len_L.
  apply read_u16_le_app_right. exact Hk.
Qed.

Lemma sfa_cd_sig : read_u32_le d (30 + a + n) = PAS_ZIP_CDH_SIG.
Proof.
  replace (30 + a + n) with (30 + a + n + 0) by lia.
  rewrite sfa_cd_u32 by lia. reflexivity.
Qed.

Lemma sfa_cd_method : read_u16_le d (30 + a + n + 10) = 0.
Proof. rewrite sfa_cd_u16 by lia. reflexivity. Qed.

Lemma sfa_cd_csize : read_u32_le d (30 + a + n + 20) = u32 n.
Proof.
  rewrite sfa_cd_u32 by lia.
  change (read_u32_le (C ++ E) 20) with (read_u32_le (le32 n) 0).
  apply read_u32_le_le32.
Qed.

Lemma sfa_cd_usize : read_u32_le d (30 + a + n + 24) = u32 n.
Proof.
  rewrite sfa_cd_u32 by lia.
  change (read_u32_le (C ++ E) 24) with (read_u32_le (le32 n) 0).
  apply read_u32_le_le32.
Qed.

Lemma sfa_cd_fn_len : read_u16_le d (30 + a + n + 28) = u16 a.
Proof.
  rewrite sfa_cd_u16 by lia.
  change (read_u16_le (C ++ E) 28) with (read_u16_le (le16 a) 0).
  apply read_u16_le_le16.
Qed.

Lemma sfa_cd_extra_len : read_u16_le d (30 + a + n + 30) = 0.
Proof. rewrite sfa_cd_u16 by lia. reflexivity. Qed.

Lemma sfa_cd_comment_len : read_u16_le d (30 + a + n + 32) = 0.
Proof. rewrite sfa_cd_u16 by lia. reflexivity. Qed.

Lemma sfa_cd_local_off : read_u32_le d (30 + a + n + 42) = 0.
Proof. rewrite sfa_cd_u32 by lia. reflexivity. Qed.

(** The trailer, at [t = 30 + a + n + 46 + a]. *)
Lemma sfa_eocd_u32 (k : Z) :
  0 <= k -> read_u32_le d (30 + a + n + (46 + a) + k) = read_u32_le E k.
Proof.
  intros Hk. rewrite sfa_split, app_assoc.
  replace (30 + a + n + (46 + a)) with (len (L ++ C))
    by (rewrite len_app, sfa_len_L, sfa_len_C; reflexivity).
  rewrite read_u32_le_app_right by exact Hk. reflexivity.
Qed.

Lemma sfa_eocd_u16 (k : Z) :
  0 <= k -> read_u16_le d (30 + a + n + (46 + a) + k) = read_u16_le E k.
Proof.
  intros Hk. rewrite sfa_split, app_assoc.
  replace (30 + a + n + (46 + a)) with (len (L ++ C))
    by (rewrite len_app, sfa_len_L, sfa_len_C; reflexivity).
  rewrite read_u16_le_app_right by exact Hk. reflexivity.
Qed.

Lemma sfa_eocd_sig :
  read_u32_le d (30 + a + n + (46 + a)) = PAS_ZIP_EOCD_SIG.
Proof.
  replace (30 + a + n + (46 + a)) with (30 + a + n + (46 + a) + 0) by lia.
  rewrite sfa_eocd_u32 by lia. reflexivity.
Qed.

Lemma sfa_eocd_count : read_u16_le d (30 + a + n + (46 + a) + 8) = 1.
Proof. rewrite sfa_eocd_u16 by lia. reflexivity. Qed.

Lemma sfa_eocd_cd_offset :
  read_u32_le d (30 + a + n + (46 + a) + 16) = u32 (30 + a + n).
Proof.
  rewrite sfa_eocd_u32 by lia.
  change (read_u32_le E 16) with (read_u32_le (le32 (30 + a + n) ++ [x00; x00]) 0).
  rewrite read_u32_le_app_left by (cbn; lia).
  apply read_u32_le_le32.
Qed.

(** The stored name and the payload. *)
Lemma skipn_app_right (pre l : list byte) (k : nat) :
  skipn (List.length pre + k) (pre ++ l) = skipn k l.
Proof.
  rewrite skipn_app. rewrite skipn_all2 by lia.
  replace (List.length pre + k - List.length pre)%nat with k by lia.
  reflexivity.
Qed.

Lemma sfa_name_bytes :
  slice d (30 + a + n + 46) a = nm.
Proof.
  unfold slice. rewrite sfa_split.
  replace (Z.to_nat (30 + a + n + 46)) with (List.length L + 46)%nat
    by (pose proof sfa_len_L as H; unfold len in *; lia).
  rewrite skipn_app_right.
  change (skipn 46 (C ++ E)) with (nm ++ E).
  unfold len. rewrite Nat2Z.id.
  rewrite firstn_app, Nat.sub_diag, firstn_O, app_nil_r, firstn_all.
  reflexivity.
Qed.

Lemma sfa_payload_bytes :
  firstn (Z.to_nat n) (skipn (Z.to_nat (30 + a)) d) = payload.
Proof.
  rewrite sfa_split.
  replace (Z.to_nat (30 + a)) with (30 + List.length nm)%nat
    by (unfold len; lia).
  change (skipn (30 + List.length nm) (L ++ C ++ E))
    with (skipn (List.length nm) ((nm ++ payload) ++ C ++ E)).
  rewrite <- app_assoc.
  replace (List.length nm) with (List.length nm + 0)%nat at 1 by lia.
  rewrite skipn_app_right. cbn [skipn].
  unfold len. rewrite Nat2Z.id.
  rewrite firstn_app, Nat.sub_diag, firstn_O, app_nil_r, firstn_all.
  reflexivity.
Qed.

End SingleFile.

Lemma bytes_eqb_same (l : list byte) : bytes_eqb l l = true.
Proof.
  induction l as [| x l IH]; [reflexivity | ]. cbn.
  rewrite (Byte.byte_dec_lb (eq_refl x)). exact IH.
Qed.

(** X17.  The reader reads back a well-formed one-file archive: for a
    name without NUL byte and shorter than 512 bytes and a payload whose
    local record fits the 32-bit offset field, [pas_zip_open] accepts the
    archive, [pas_zip_find] finds the name, and [pas_zip_extract] into a
    destination of the payload's size returns that size with status OK and
    fills the destination with the payload. *)
Theorem read_single_file_archive (st : state) (nm payload buffer : list byte) :
  ~ In x00 nm ->
  len nm < 512 ->
  30 + len nm + len payload < 4294967296 ->
  len buffer = len payload ->
  fst (pas_zip_open st (single_file_archive nm payload))
  = (ZIP_HANDLE, PAS_ZIP_OK) /\
  fst (pas_zip_find (snd (pas_zip_open st (single_file_archive nm payload)))
                    ZIP_HANDLE nm) = FILE_CURRENT /\
  pas_zip_extract
    (snd (pas_zip_find (snd (pas_zip_open st (single_file_archive nm payload)))
                       ZIP_HANDLE nm))
    FILE_CURRENT buffer
  = (len payload, PAS_ZIP_OK, payload).
Proof.
  intros Hnul Hshort Hsmall Hbuf.
  set (d := single_file_archive nm payload).
  set (a := len nm) in *. set (n := len payload) in *.
  assert (Ha : 0 <= a) by (unfold a, len; lia).
  assert (Hn : 0 <= n) by (unfold n, len; lia).
  pose proof (sfa_len nm payload) as Hlen. cbv zeta in Hlen.
  fold d a n in Hlen.
  set (p := 30 + a + n).
  (* open *)
  assert (Hopen : pas_zip_open st d
                  = (ZIP_HANDLE, PAS_ZIP_OK,
                     mk_state (mk_pas_zip d (len d) p 1)
                              (pas_zip__current_file st)
                              (pas_zip__name_buf st))).
  { pose proof (sfa_eocd_sig nm payload) as Hsig.
    pose proof (sfa_eocd_count nm payload) as Hcnt.
    pose proof (sfa_eocd_cd_offset nm payload) as Hcdo.
    cbv zeta in Hsig, Hcnt, Hcdo. fold d a n in Hsig, Hcnt, Hcdo.
    assert (Ht : len d - 22 = 30 + a + n + (46 + a)) by lia.
    unfold pas_zip_open.
    destruct (Z.ltb_spec (len d) 22); [lia | ].
    unfold find_eocd, find_eocd_run.
    destruct (Z.ltb_spec (len d) 22); [lia | ].
    rewrite (find_eocd_loop_first_match d (len d) ltac:(lia) 0%nat
               (find_eocd_fuel (len d)) _ (len d - 22) (len d - 22));
      [ | lia | destruct (len d >? 65557) eqn:E; lia | cbn; lia | lia
        | unfold find_eocd_fuel; lia | rewrite Ht; exact Hsig
        | intros j Hj; lia ].
    rewrite Ht, Hcdo, Hcnt. unfold u32. rewrite Z.mod_small by lia.
    fold p. destruct (Z.geb_spec p (len d)); [unfold p in *; lia | ].
    reflexivity. }
  rewrite Hopen. cbn [fst snd]. split; [reflexivity | ].
  (* the directory record *)
  pose proof (sfa_cd_sig nm payload) as Csig.
  pose proof (sfa_cd_method nm payload) as Cm.
  pose proof (sfa_cd_csize nm payload) as Ccs.
  pose proof (sfa_cd_usize nm payload) as Cus.
  pose proof (sfa_cd_fn_len nm payload) as Cfn.
  pose proof (sfa_cd_extra_len nm payload) as Cex.
  pose proof (sfa_cd_comment_len nm payload) as Cco.
  pose proof (sfa_cd_local_off nm payload) as Cof.
  pose proof (sfa_name_bytes nm payload) as Cnm.
  cbv zeta in Csig, Cm, Ccs, Cus, Cfn, Cex, Cco, Cof, Cnm.
  fold d a n p in Csig, Cm, Ccs, Cus, Cfn, Cex, Cco, Cof, Cnm.
  unfold u16 in Cfn. rewrite Z.mod_small in Cfn by lia.
  unfold u32 in Ccs, Cus. rewrite Z.mod_small in Ccs, Cus by lia.
  assert (Hokb : cd_record_okb d p (len d) = true).
  { unfold cd_record_okb, cd_fn_len, cd_extra_len, cd_comment_len.
    rewrite Csig, Cfn, Cex, Cco, Z.eqb_refl.
    repeat (apply andb_true_iff; split); try reflexivity;
      apply Z.leb_le; unfold p; lia. }
  assert (Hrecs : cd_records d (len d) 1 p = [p]).
  { cbn [cd_records]. rewrite Hokb.
    destruct (Z.ltb_spec p (len d)); [reflexivity | unfold p in *; lia]. }
  assert (Hkept : kept_name (cd_stored_name d p) = nm).
  { unfold kept_name, cd_stored_name, cd_fn_len. rewrite Cfn, Cnm.
    rewrite firstn_all2 by (unfold a, len in Hshort; lia).
    apply cstr_nul_free. exact Hnul. }
  assert (Hmatch : name_matches d nm p = true).
  { unfold name_matches. rewrite Hkept, (cstr_nul_free nm Hnul).
    apply bytes_eqb_same. }
  pose proof (cd_iterate_loop_find d (len d) ltac:(lia) nm 1%nat p
                (pas_zip__name_buf st) [] ltac:(unfold p; lia)) as Hwalk.
  rewrite Hrecs in Hwalk. cbn [List.find] in Hwalk. rewrite Hmatch in Hwalk.
  destruct Hwalk as (Hret & Hout & _).
  cbn [pas_zip_find]. unfold cd_iterate.
  cbn [pas_zip__handle pas_zip__name_buf data size cd_offset num_entries].
  change (Z.to_nat 1) with 1%nat.
  rewrite Hret, Hout. cbn [fst snd]. split; [reflexivity | ].
  (* extraction *)
  pose proof (sfa_local_sig nm payload) as Lsig.
  pose proof (sfa_local_fn_len nm payload) as Lfn.
  pose proof (sfa_local_extra_len nm payload) as Lex.
  pose proof (sfa_payload_bytes nm payload) as Lpay.
  cbv zeta in Lsig, Lfn, Lex, Lpay. fold d a n in Lsig, Lfn, Lex, Lpay.
  unfold u16 in Lfn. rewrite Z.mod_small in Lfn by lia.
  rewrite extract_store_result;
    cbn [pas_zip__handle pas_zip__current_file data size cd_entry
           compression_method compressed_size uncompressed_size
           local_header_offset].
  - rewrite Cof, Cus, Ccs, Lfn, Lex.
    replace (30 + a + 0) with (30 + a) by lia.
    unfold memcpy. rewrite Lpay.
    rewrite skipn_all2 by (unfold n, len in *; lia).
    rewrite app_nil_r. reflexivity.
  - lia.
  - exact Cm.
  - rewrite Ccs. exact Hn.
  - rewrite Cus. lia.
  - rewrite Cof, Ccs. unfold local_header_ok.
    rewrite Lsig, Lfn, Lex. repeat split; lia.
Qed.

Lemma read_single_file_archive_witness :
  pas_zip_extract
    (snd (pas_zip_find
            (snd (pas_zip_open initial_state
                    (single_file_archive Fixture.name_a_txt
                                         Fixture.payload_CD)))
            ZIP_HANDLE Fixture.name_a_txt))
    FILE_CURRENT (zeros 2)
  = (len Fixture.payload_CD, PAS_ZIP_OK, Fixture.payload_CD).
Proof.
  apply (read_single_file_archive initial_state Fixture.name_a_txt
           Fixture.payload_CD (zeros 2)).
  - vm_compute. intuition discriminate.
  - vm_compute. reflexivity.
  - vm_compute. reflexivity.
  - vm_compute. reflexivity.
Defined.

(** ** The entries of the directory stay inside the archive *)

Lemma cd_record_okb_ok (d : list byte) (p end_ : Z) :
  cd_record_okb d p end_ = true -> cd_record_ok d p end_.
Proof.
  unfold cd_record_okb, cd_record_ok. intros H.
  apply andb_true_iff in H. destruct H as [H H3].
  apply andb_true_iff in H. destruct H as [H1 H2].
  apply Z.leb_le in H1. apply Z.leb_le in H3. apply Z.eqb_eq in H2.
  repeat split; assumption.
Qed.

Lemma cd_records_bounds (d : list byte) (end_ : Z) (n : nat) :
  forall p0,
    Forall (fun p => p0 <= p /\ p < end_ /\ cd_record_ok d p end_ /\
                     p + cd_advance d p <= end_)
           (cd_records d end_ n p0) /\
    ForallOrdPairs (fun p p' => p + cd_advance d p <= p')
                   (cd_records d end_ n p0).
Proof.
  induction n as [| n IH]; intros p0; cbn [cd_records].
  - split; constructor.
  - destruct (Z.ltb_spec p0 end_) as [Hlt | Hge]; cbn [andb];
      [ | split; constructor].
    destruct (cd_record_okb d p0 end_) eqn:Hokb; [ | split; constructor].
    pose proof (cd_record_okb_ok d p0 end_ Hokb) as Hok.
    pose proof (cd_advance_nonneg d p0) as Hadv.
    destruct (IH (p0 + cd_advance d p0)) as [Hall Hpairs].
    split.
    + constructor.
      * split; [lia | ]. split; [exact Hlt | ]. split; [exact Hok | ].
        destruct Hok as (_ & _ & Hneed). unfold cd_advance. exact Hneed.
      * eapply Forall_impl; [ | exact Hall].
        intros q (Hq1 & Hq2). split; [lia | exact Hq2].
    + constructor; [ | exact Hpairs].
      eapply Forall_impl; [ | exact Hall].
      intros q (Hq1 & _). exact Hq1.
Qed.

(** X18.  An entry returned by [pas_zip_find] was parsed from a record of
    the opened archive that starts at or after the directory offset and
    before the end, begins with the directory signature, and lies with its
    46-byte fixed part, its name, its extra field and its comment inside
    the archive; the entry's method, sizes and local header offset are the
    fields of that record and so 16-bit and 32-bit values. *)
Theorem found_entry_in_bounds (st st' : state) (q : list byte) :
  handle_ok (pas_zip__handle st) ->
  pas_zip_find st ZIP_HANDLE q = (FILE_CURRENT, st') ->
  exists p,
    cd_offset (pas_zip__handle st) <= p < len (data (pas_zip__handle st)) /\
    read_u32_le (data (pas_zip__handle st)) p = PAS_ZIP_CDH_SIG /\
    p + 46 + read_u16_le (data (pas_zip__handle st)) (p + 28)
    + read_u16_le (data (pas_zip__handle st)) (p + 30)
    + read_u16_le (data (pas_zip__handle st)) (p + 32)
    <= len (data (pas_zip__handle st)) /\
    compression_method (pas_zip__current_file st')
    = read_u16_le (data (pas_zip__handle st)) (p + 10) /\
    compressed_size (pas_zip__current_file st')
    = read_u32_le (data (pas_zip__handle st)) (p + 20) /\
    uncompressed_size (pas_zip__current_file st')
    = read_u32_le (data (pas_zip__handle st)) (p + 24) /\
    local_header_offset (pas_zip__current_file st')
    = read_u32_le (data (pas_zip__handle st)) (p + 42) /\
    entry_fields_ok (pas_zip__current_file st').
Proof.
  intros Hok Hfind. pose proof Hok as [Hsz Hcd].
  destruct (find_hit_record st st' q Hok Hfind)
    as (p & Hin & (H46 & Hsig & Hneed) & Hcur & _).
  destruct (cd_records_bounds (data (pas_zip__handle st))
              (size (pas_zip__handle st))
              (Z.to_nat (num_entries (pas_zip__handle st)))
              (cd_offset (pas_zip__handle st))) as [Hall _].
  rewrite Forall_forall in Hall.
  destruct (Hall p Hin) as (Hlo & Hhi & _).
  exists p. unfold cd_fn_len, cd_extra_len, cd_comment_len in Hneed.
  split; [lia | ]. split; [exact Hsig | ]. split; [lia | ].
  rewrite Hcur. cbn.
  repeat (split; [reflexivity | ]).
  unfold entry_fields_ok. cbn.
  repeat split; try apply read_u32_le_range; apply read_u16_le_range.
Qed.

Lemma found_entry_in_bounds_witness :
  exists p,
    cd_offset (pas_zip__handle Fixture.st_ab) <= p
    < len (data (pas_zip__handle Fixture.st_ab)) /\
    read_u32_le (data (pas_zip__handle Fixture.st_ab)) p = PAS_ZIP_CDH_SIG.
Proof.
  destruct (found_entry_in_bounds Fixture.st_ab Fixture.st_ab_b
              Fixture.name_b) as (p & Hp & Hsig & _).
  - by_evaluation.
  - vm_compute. reflexivity.
  - exists p. split; [exact Hp | exact Hsig].
Defined.

(** ** When the capacity is too small *)

Lemma create_locals_error_fit (bs : Z) (files : list zfile) :
  forall out s out',
    names_fit files ->
    create_locals files bs out = inl (s, out') -> s = PAS_ZIP_E_NOSPACE.
Proof.
  induction files as [| [fname dat] files IH]; intros out s out' Hfit H;
    cbn [create_locals] in H; [discriminate | ].
  inversion Hfit as [| f l Hshort Hrest]; subst. cbn [fst] in Hshort.
  rewrite (u16_small (strlen fname)) in H
    by (pose proof (strlen_nonneg fname); lia).
  rewrite Z.eqb_refl in H. cbn [negb] in H.
  destruct (usize _ >? bs); [injection H as <- _; reflexivity | ].
  exact (IH _ _ _ Hrest H).
Qed.

Lemma create_central_error_nospace (bs : Z) (files todo : list zfile) :
  forall i cd_size out s out',
    create_central files todo i bs cd_size out = inl (s, out') ->
    s = PAS_ZIP_E_NOSPACE.
Proof.
  induction todo as [| [fname dat] todo IH]; intros i cd_size out s out' H;
    cbn [create_central] in H; [discriminate | ].
  destruct (usize _ >? bs); [injection H as <- _; reflexivity | ].
  exact (IH _ _ _ _ _ H).
Qed.

(** X19.  For a non-empty input whose filenames are shorter than 65536
    bytes, a capacity below the total makes [pas_zip_create] return 0 with
    status NoSpace. *)
Theorem create_nospace_when_short (files : list zfile) (bs : Z) :
  files <> [] ->
  names_fit files ->
  bs < create_total files ->
  create_total files < 18446744073709551616 ->
  cr_ret (pas_zip_create files bs) = 0 /\
  cr_status (pas_zip_create files bs) = PAS_ZIP_E_NOSPACE.
Proof.
  intros Hne Hfit Hshort Hsmall. unfold pas_zip_create.
  destruct (Z.leb_spec (Z.of_nat (List.length files)) 0) as [Hn | Hn].
  { destruct files; [contradiction | cbn in Hn; lia]. }
  destruct (create_locals files bs []) as [[s out] | out1] eqn:Hloc.
  { cbn. split; [reflexivity | ].
    exact (create_locals_error_fit bs files [] s out Hfit Hloc). }
  destruct (create_central files files 0 bs 0 out1)
    as [[s out] | [cd_size out2]] eqn:Hcen.
  { cbn. split; [reflexivity | ].
    exact (create_central_error_nospace bs files files 0%nat 0 out1 s out
             Hcen). }
  destruct (create_locals_done files bs [] out1 Hloc) as [_ Hl1].
  pose proof (create_central_done files bs files 0%nat 0 out1 cd_size out2
                Hfit Hcen) as Hl2.
  cbn in Hl1.
  assert (Htot : len out2 + 22 = create_total files)
    by (unfold create_total; lia).
  pose proof (locals_size_nonneg files). pose proof (centrals_size_nonneg files).
  rewrite usize_small by (unfold create_total in *; lia).
  destruct (Z.gtb_spec (len out2 + 22) bs); [split; reflexivity | lia].
Qed.

Lemma create_nospace_when_short_witness :
  cr_ret (pas_zip_create Fixture.scenario 195) = 0 /\
  cr_status (pas_zip_create Fixture.scenario 195) = PAS_ZIP_E_NOSPACE.
Proof.
  apply (create_nospace_when_short Fixture.scenario 195).
  - discriminate.
  - repeat constructor; vm_compute; reflexivity.
  - vm_compute. reflexivity.
  - vm_compute. reflexivity.
Defined.

(** ** The trailer scan is bounded *)

Section EocdBound.

Variable d : list byte.
Variable sz : Z.
Hypothesis sz_fits : sz < 18446744073709551616.

Lemma find_eocd_loop_ends_in_window (fuel : nat) :
  forall (search_end i : Z),
    0 <= search_end <= i -> i + 22 <= sz ->
    (Z.to_nat (i - search_end) < fuel)%nat ->
    find_eocd_loop fuel d sz search_end i <> None.
Proof.
  induction fuel as [| fuel IH]; intros search_end i Hse Hi Hf; [lia | ].
  cbn [find_eocd_loop].
  rewrite (usize_small (i + 22)) by lia.
  destruct (Z.gtb_spec (i + 22) sz); [lia | ].
  destruct (read_u32_le d i =? PAS_ZIP_EOCD_SIG).
  { destruct (read_u32_le d (i + 16) >=? sz); discriminate. }
  destruct (Z.leb_spec i search_end); cbn [orb]; [discriminate | ].
  destruct (Z.eqb_spec i 0); [discriminate | ].
  rewrite (usize_small (i - 1)) by lia.
  apply IH; lia.
Qed.

Lemma find_eocd_loop_more_fuel (fuel : nat) :
  forall (fuel' : nat) (search_end i : Z) r,
    find_eocd_loop fuel d sz search_end i = Some r ->
    (fuel <= fuel')%nat ->
    find_eocd_loop fuel' d sz search_end i = Some r.
Proof.
  induction fuel as [| fuel IH]; intros fuel' search_end i r H Hle;
    cbn [find_eocd_loop] in H; [discriminate | ].
  destruct fuel' as [| fuel']; [lia | ]. cbn [find_eocd_loop].
  destruct (usize (i + 22) >? sz); [apply (IH fuel'); [exact H | lia] | ].
  destruct (read_u32_le d i =? PAS_ZIP_EOCD_SIG); [exact H | ].
  destruct ((i <=? search_end) || (i =? 0)); [exact H | ].
  apply (IH fuel'); [exact H | lia].
Qed.

End EocdBound.

(** X20.  The backward scan for the trailer is bounded: whatever the size
    of the buffer, the loop of [find_eocd] reaches its result within
    65536 iterations (within [size - 21] for a shorter buffer). *)
Theorem eocd_scan_bounded (d : list byte) (sz : Z) :
  22 <= sz < 18446744073709551616 ->
  find_eocd_loop (Z.to_nat (Z.min (sz - 21) 65536)) d sz
                 (scan_window_start sz) (sz - 22)
  = Some (find_eocd d sz).
Proof.
  intros [Hlo Hhi].
  pose proof (scan_window_start_bounds sz Hlo) as Hw.
  assert (Hwin : sz - 22 - scan_window_start sz < Z.min (sz - 21) 65536).
  { unfold scan_window_start. destruct (Z.gtb_spec sz 65557); lia. }
  destruct (find_eocd_loop (Z.to_nat (Z.min (sz - 21) 65536)) d sz
              (scan_window_start sz) (sz - 22)) as [r | ] eqn:Hloop.
  - f_equal. unfold find_eocd, find_eocd_run.
    destruct (Z.ltb_spec sz 22); [lia | ].
    fold (scan_window_start sz).
    rewrite (find_eocd_loop_more_fuel d sz _ (find_eocd_fuel sz) _ _ r Hloop);
      [reflexivity | unfold find_eocd_fuel; lia].
  - exfalso. revert Hloop.
    apply find_eocd_loop_ends_in_window; lia.
Qed.

Lemma eocd_scan_bounded_witness :
  find_eocd_loop (Z.to_nat (Z.min (182 - 21) 65536)) Fixture.archive_ab 182
                 (scan_window_start 182) (182 - 22)
  = Some (find_eocd Fixture.archive_ab 182).
Proof.
  apply (eocd_scan_bounded Fixture.archive_ab 182).
  vm_compute. split; [discriminate | reflexivity].
Defined.
